(** * Rumor spreading on a scale-free network (project.py)

    Shallow embedding of [generate_new_graph] and [run_rumors] from
    [project.py].  NumPy matrices are total maps [nat -> nat -> A] read
    inside their shape; per-node Python lists are total maps over node ids.
    Every random draw of the global NumPy stream is an explicit argument
    (an oracle), so the functions below are deterministic given the draws. *)

From Stdlib Require Import String Ascii.
From Stdlib Require Import List Arith Lia Bool ZArith QArith Reals Lra.
From Stdlib Require Import FunctionalExtensionality Permutation.
Import ListNotations.

Open Scope nat_scope.

(** ** Matrices *)

Definition mat (A : Type) := nat -> nat -> A.

(** [M[i,j] = v] *)
Definition mupd {A} (M : mat A) (i j : nat) (v : A) : mat A :=
  fun a b => if (a =? i) && (b =? j) then v else M a b.

(** [sum(M[i,:])] for an [n]-column matrix. *)
Definition row_sum (M : mat nat) (n i : nat) : nat :=
  fold_left (fun s j => s + M i j) (seq 0 n) 0.

(** [np.flatnonzero(M[i,:])] *)
Definition flatnonzero (M : mat nat) (n i : nat) : list nat :=
  filter (fun j => negb (M i j =? 0)) (seq 0 n).

(** ** Seed phase of [generate_new_graph] *)

(** [0.5*edges + 0.5*edges.T] on the [np.random.rand] draw *)
Definition symmetrize (E : mat Q) : mat Q :=
  fun a b => ((1#2) * E a b + (1#2) * E b a)%Q.

(** [edges[edges>0.5] = 1; edges[edges<=0.5] = 0] *)
Definition threshold (S : mat Q) : mat nat :=
  fun a b => if Qle_bool (S a b) (1#2) then 0 else 1.

(** [for i in range(m0): edges[i,i] = 0; if sum(edges[i,:]) == 0: repeat = True] *)
Definition seed_rows (E : mat nat) (m0 : nat) : mat nat * bool :=
  fold_left
    (fun (acc : mat nat * bool) i =>
       let E' := mupd (fst acc) i i 0 in
       (E', snd acc || (row_sum E' m0 i =? 0)))
    (seq 0 m0) (E, false).

(** The [while repeat] loop: one uniform draw per attempt.  Running out of
    draws ([None]) stands for the loop not having stopped yet. *)
Fixpoint seed_phase (m0 : nat) (draws : list (mat Q)) : option (mat nat) :=
  match draws with
  | [] => None
  | d :: ds =>
      let r := seed_rows (threshold (symmetrize d)) m0 in
      if snd r then seed_phase m0 ds else Some (fst r)
  end.

(** ** Growth phase *)

(** Appending [new_col] (ones at [new_edges]) as column [n] and its transpose
    (with a trailing zero) as row [n]. *)
Definition grow (E : mat nat) (n : nat) (new_edges : list nat) : mat nat :=
  let new_col := fun k => if existsb (Nat.eqb k) new_edges then 1 else 0 in
  fun a b =>
    if (a <? n) && (b <? n) then E a b
    else if (a <? n) && (b =? n) then new_col a
    else if (a =? n) && (b <? n) then new_col b
    else 0.

(** One growth step.  [sel] is the sample returned by
    [np.random.choice(range(n), m, replace=False, p=prob/sum(prob))];
    NumPy raises when fewer than [m] entries of [p] are non-zero. *)
Definition growth_step (E : mat nat) (n m : nat) (sel : list nat)
  : option (mat nat) :=
  let prob := map (row_sum E n) (seq 0 n) in
  if length (filter (fun p => negb (p =? 0)) prob) <? m then None
  else Some (grow E n sel).

(** [for t in range(T)]; [sels t] is the sample of step [t]. *)
Fixpoint growth (E : mat nat) (n m : nat) (sels : nat -> list nat)
  (t T : nat) : option (mat nat * nat) :=
  match T with
  | 0 => Some (E, n)
  | S T' =>
      match growth_step E n m (sels t) with
      | None => None
      | Some E' => growth E' (S n) m sels (S t) T'
      end
  end.

(** ** Trust matrix *)

Open Scope R_scope.

(** [sum(edges[j,:])**beta] *)
Definition pw (d : nat) (beta : R) : R := Rpower (INR d) beta.

(** Python's [max] over a list; [None] is the [ValueError] on []. *)
Definition max_list (l : list R) : option R :=
  match l with
  | [] => None
  | x :: l' => Some (fold_left Rmax l' x)
  end.

(** [sum(edges[j,:])**beta/max([sum(edges[k,:])**beta for k in
    np.flatnonzero(edges[i,:])])] *)
Definition eta_entry (beta : R) (E : mat nat) (n i j : nat) : option R :=
  match max_list (map (fun k => pw (row_sum E n k) beta) (flatnonzero E n i)) with
  | None => None
  | Some mx => Some (pw (row_sum E n j) beta / mx)
  end.

(** Body of the inner loop: [eta[i,j] = ...; eta[j,i] = eta[i,j]]. *)
Definition eta_step (beta : R) (E : mat nat) (n : nat)
  (acc : option (mat R)) (ij : nat * nat) : option (mat R) :=
  match acc with
  | None => None
  | Some M =>
      match eta_entry beta E n (fst ij) (snd ij) with
      | None => None
      | Some v => let M1 := mupd M (fst ij) (snd ij) v in
                  Some (mupd M1 (snd ij) (fst ij) (M1 (fst ij) (snd ij)))
      end
  end.

(** [eta = np.zeros(edges.shape); for i in range(n): for j in range(i, n): ...] *)
Definition calc_eta (beta : R) (E : mat nat) (n : nat) : option (mat R) :=
  fold_left
    (fun acc i =>
       fold_left (fun acc' j => eta_step beta E n acc' (i, j))
         (seq i (n - i)) acc)
    (seq 0 n) (Some (fun _ _ => 0)).

(** [generate_new_graph(beta, T, m0, m)] returning [(eta, edges)]; the
    matrices have [m0 + T] rows (see [generate_dim]).  The [np.save] calls
    are output only. *)
Definition generate_new_graph (beta : R) (T m0 m : nat) (draws : list (mat Q))
  (sels : nat -> list nat) : option (mat R * mat nat) :=
  match seed_phase m0 draws with
  | None => None
  | Some E0 =>
      match growth E0 m0 m sels 0 T with
      | None => None
      | Some (E, n) =>
          match calc_eta beta E n with
          | None => None
          | Some M => Some (M, E)
          end
      end
  end.

(** [generate_graph(edges)]: the nodes [range(n)] and the edges in the
    order of the [G.add_edge(i,j)] calls
    ([for i in range(n): for j in range(i,n): if edges[i,j] == 1]). *)
Definition generate_graph (E : mat nat) (n : nat) : list nat * list (nat * nat) :=
  (seq 0 n,
   flat_map (fun i => map (fun j => (i, j)) (filter (fun j => E i j =? 1) (seq i (n - i))))
     (seq 0 n)).

Close Scope R_scope.

(** ** Node memory: a [collections.Counter] and the ordered list *)

Definition code := string.

(** A [Counter] as its items in insertion order. *)
Definition counter := list (code * Z).

(** [count[k]] (0 for a missing key, which is not inserted) *)
Fixpoint cget (c : counter) (k : code) : Z :=
  match c with
  | [] => 0%Z
  | (k', v) :: c' => if String.eqb k k' then v else cget c' k
  end.

(** [count[k] = v]: in place if present, appended otherwise *)
Fixpoint cset (c : counter) (k : code) (v : Z) : counter :=
  match c with
  | [] => [(k, v)]
  | (k', v') :: c' =>
      if String.eqb k k' then (k', v) :: c' else (k', v') :: cset c' k v
  end.

(** [del count[k]] *)
Fixpoint cdel (c : counter) (k : code) : counter :=
  match c with
  | [] => []
  | (k', v') :: c' => if String.eqb k k' then c' else (k', v') :: cdel c' k
  end.

Definition cincr (c : counter) (k : code) : counter := cset c k (cget c k + 1)%Z.
Definition cdecr (c : counter) (k : code) : counter := cset c k (cget c k - 1)%Z.
Definition ckeys (c : counter) : list code := map fst c.

(** [sum(count.values())] *)
Definition csum (c : counter) : Z := fold_left Z.add (map snd c) 0%Z.

(** [count.most_common()]: [sorted(items, key=count, reverse=True)],
    a stable sort, as an insertion sort. *)
Fixpoint ins_desc (x : code * Z) (l : list (code * Z)) : list (code * Z) :=
  match l with
  | [] => [x]
  | y :: l' => if (snd x <? snd y)%Z then y :: ins_desc x l' else x :: l
  end.

Definition most_common (c : counter) : list (code * Z) :=
  fold_right ins_desc [] c.

(** [largest_vals = [i for (i,j) in mclist if j==largest_num]] *)
Definition largest_vals (c : counter) : list code :=
  match most_common c with
  | [] => []
  | (_, largest_num) :: _ =>
      map fst (filter (fun p => (snd p =? largest_num)%Z) (most_common c))
  end.

(** [get_mc(count)]: [np.random.choice(largest_vals)] returns
    [largest_vals[pick(len(largest_vals))]], [pick b] being the uniform
    integer below [b] drawn from the stream. *)
Definition get_mc (c : counter) (pick : nat -> nat) : code :=
  let lv := largest_vals c in nth (pick (length lv)) lv EmptyString.

(** [str(1-int(rumor[bitflip]))] *)
Definition flip_char (o : option ascii) : string :=
  match o with
  | Some "1"%char => "0"
  | _ => "1"
  end.

(** [rumor[0:bitflip] + str(1-int(rumor[bitflip])) + rumor[bitflip+1:]] *)
Definition flip (rumor : code) (bitflip : nat) : code :=
  (substring 0 bitflip rumor ++ flip_char (String.get bitflip rumor)
   ++ substring (S bitflip) (String.length rumor - S bitflip) rumor)%string.

(** [for j in range(len(l)): if l[j] == rumor: l[j] = new_rumor; break] *)
Fixpoint relabel_first (l : list code) (old new : code) : list code :=
  match l with
  | [] => []
  | x :: l' => if String.eqb x old then new :: l' else x :: relabel_first l' old new
  end.

(** Lines 244-251: the in-place mutation of a held rumor. *)
Definition mutate_held (c : counter) (l : list code) (old new : code)
  : counter * list code :=
  let c1 := cincr c new in
  let c2 := cdecr c1 old in
  let c3 := if (cget c2 old =? 0)%Z then cdel c2 old else c2 in
  (c3, relabel_first l old new).

(** Lines 263-269: one queued insertion with FIFO eviction. *)
Definition insert (L : Z) (cl : counter * list code) (up : code)
  : counter * list code :=
  let c1 := cincr (fst cl) up in
  let l1 := snd cl ++ [up] in
  if (L <? Z.of_nat (length l1))%Z then
    match l1 with
    | [] => (c1, l1)
    | first :: rest =>
        let c2 := cdecr c1 first in
        ((if (cget c2 first =? 0)%Z then cdel c2 first else c2), rest)
    end
  else (c1, l1).

(** ** [str2col] *)

(** [int(a)] on a one-character string; [None] is the [ValueError]. *)
Definition digit_val (a : ascii) : option nat :=
  let k := nat_of_ascii a in
  if (48 <=? k) && (k <=? 57) then Some (k - 48) else None.

(** [sum([int(a) for a in label])] *)
Fixpoint sum_digits (s : string) : option nat :=
  match s with
  | EmptyString => Some 0
  | String a s' =>
      match digit_val a, sum_digits s' with
      | Some d, Some t => Some (d + t)
      | _, _ => None
      end
  end.

(** The [if num==0 ... elif num==5] chain; [None] when no branch is taken
    and the function returns [None]. *)
Definition palette (num : nat) : option string :=
  match num with
  | 0 => Some "#33ccff"
  | 1 => Some "#e6ccff"
  | 2 => Some "#cc99ff"
  | 3 => Some "#ff99ff"
  | 4 => Some "#ff3399"
  | 5 => Some "#ff0000"
  | _ => None
  end%string.

(** [str2col(count)]: the outer [None] is the [ValueError] of [int], the
    inner one the implicit [return None]; [pick] is [get_mc]'s draw. *)
Definition str2col (c : counter) (pick : nat -> nat) : option (option string) :=
  match ckeys c with
  | [] => Some (Some "#ffffff"%string)
  | _ =>
      match sum_digits (get_mc c pick) with
      | None => None
      | Some num => Some (palette num)
      end
  end.

(** ** The round loop of [run_rumors] *)

Open Scope R_scope.

(** Parameters of [run_rumors] other than the roles and the draws. *)
Record config := mkConfig {
  n_nodes : nat;        (** [edges.shape[0]] *)
  edges : mat nat;
  eta : mat R;
  K : R;
  Hmax : R;
  L : Z;
  mcr : bool
}.

(** The draws node [i] takes from the stream in one round. *)
Record node_draws := mkDraws {
  d_pick : nat -> nat;          (** [np.random.choice(largest_vals)] in [get_mc] *)
  d_weighted : list R -> nat;   (** [np.random.choice(list(count), p=...)] *)
  d_mutate : R -> bool;         (** [np.random.choice([True,False], p=[Pi,1-Pi])] *)
  d_bitflip : nat;              (** [np.random.choice(range(5))] *)
  d_accept : nat -> R -> bool   (** neighbour [j], [p=[eta[j,i],1-eta[j,i]]] *)
}.

(** [mem_dict], [mem_list] and the entropy list [H]. *)
Record state := mkState {
  mem_dict : nat -> counter;
  mem_list : nat -> list code;
  Hs : nat -> R
}.

Definition fupd {A} (f : nat -> A) (i : nat) (v : A) : nat -> A :=
  fun k => if (k =? i)%nat then v else f k.

(** [i in liars or i in truths] *)
Definition is_special (liars truths : list nat) (i : nat) : bool :=
  existsb (Nat.eqb i) liars || existsb (Nat.eqb i) truths.

(** [sum([- val/totrum*np.log2(val/totrum) for val in count.values()])] *)
Definition entropy (c : counter) (totrum : Z) : R :=
  fold_left Rplus
    (map (fun val => - (IZR val / IZR totrum) * (ln (IZR val / IZR totrum) / ln 2))
       (map snd c)) 0.

(** Lines 232-236: [get_mc(mem_dict[i])] if [mcr], else
    [np.random.choice(list(count), p=[v/totrum for v in count.values()])]. *)
Definition select_rumor (cfg : config) (dr : node_draws) (c : counter) : code :=
  if mcr cfg then get_mc c (d_pick dr)
  else nth (d_weighted dr (map (fun k => IZR k / IZR (csum c)) (map snd c)))
         (ckeys c) EmptyString.

(** [Pi = 1/(np.exp((Hmax-H[i])*K/Hmax) + 1)] *)
Definition mutation_prob (cfg : config) (h : R) : R :=
  1 / (exp ((Hmax cfg - h) * K cfg / Hmax cfg) + 1).

(** Lines 229-252 for node [i]: from its own [mem_dict[i]], [mem_list[i]]
    and [H[i]], the new values of these and the rumor it broadcasts
    ([None] when [totrum == 0]).  With [Hmax = 0] Python's [Pi] is NaN
    and the draw at line 240 raises; the model does not, so it describes
    the program for [Hmax <> 0] only. *)
Definition node_local (cfg : config) (special : bool) (dr : node_draws)
  (c : counter) (l : list code) (h : R) : counter * list code * R * option code :=
  let totrum := csum c in
  if (totrum =? 0)%Z then (c, l, h, None)
  else if special then (c, l, h, Some (get_mc c (d_pick dr)))
  else
    let rumor := select_rumor cfg dr c in
    let h' := entropy c totrum in
    let Pi := mutation_prob cfg h' in
    if d_mutate dr Pi then
      let new_rumor := flip rumor (d_bitflip dr) in
      let cl := mutate_held c l rumor new_rumor in
      (fst cl, snd cl, h', Some new_rumor)
    else (c, l, h', Some rumor).

(** Lines 253-259: queue [rumor] at every accepting neighbour of [i].
    NumPy raises at line 257 when [eta[j,i]] is outside [[0, 1]]; the
    model's draw does not, so it describes the program for such entries
    in [[0, 1]] only. *)
Definition enqueue (cfg : config) (liars truths : list nat) (dr : node_draws)
  (i : nat) (rumor : code) (upd : nat -> list code) : nat -> list code :=
  fold_left
    (fun u j =>
       if is_special liars truths j then u
       else if d_accept dr j (eta cfg j i) then fupd u j (u j ++ [rumor]) else u)
    (flatnonzero (edges cfg) (n_nodes cfg) i) upd.

(** One iteration of [for i in range(edges.shape[0])] (lines 229-259). *)
Definition node_iter (cfg : config) (liars truths : list nat)
  (dr : nat -> node_draws) (acc : state * (nat -> list code)) (i : nat)
  : state * (nat -> list code) :=
  let st := fst acc in
  let r := node_local cfg (is_special liars truths i) (dr i)
             (mem_dict st i) (mem_list st i) (Hs st i) in
  let '(c', l', h', ob) := r in
  let st' := mkState (fupd (mem_dict st) i c') (fupd (mem_list st) i l')
               (fupd (Hs st) i h') in
  match ob with
  | None => (st', snd acc)
  | Some rumor => (st', enqueue cfg liars truths (dr i) i rumor (snd acc))
  end.

(** Lines 261-269: [for j, update_list in enumerate(updates)]. *)
Definition apply_updates (cfg : config) (st : state) (upd : nat -> list code)
  : state :=
  fold_left
    (fun s j =>
       let cl := fold_left (insert (L cfg)) (upd j) (mem_dict s j, mem_list s j) in
       mkState (fupd (mem_dict s) j (fst cl)) (fupd (mem_list s) j (snd cl)) (Hs s))
    (seq 0 (n_nodes cfg)) st.

(** One round, lines 219-269; also returns the queue [updates]. *)
Definition round (cfg : config) (liars truths : list nat)
  (dr : nat -> node_draws) (st : state) : state * (nat -> list code) :=
  let p1 := fold_left (node_iter cfg liars truths dr) (seq 0 (n_nodes cfg))
              (st, fun _ => []) in
  (apply_updates cfg (fst p1) (snd p1), snd p1).

(** ** Statistics and the whole run *)

Record stats := mkStats {
  avgH : list R;
  varH : list R;
  maxH : list R;
  minH : list R;
  opinion_frag : list (list R)   (** one column of 32 per round *)
}.

(** [format(a,'05b')] *)
Fixpoint bits (k a : nat) : string :=
  match k with
  | O => EmptyString
  | S k' => String (if Nat.testbit a k' then "1"%char else "0"%char) (bits k' a)
  end.

(** Lines 271-278.  [None] is Python's error on an empty [H]
    ([sum(H)/len(H)], [max(H)]).  [sd i] is [get_mc]'s draw for node [i]. *)
Definition round_stats (cfg : config) (st : state) (sd : nat -> nat -> nat)
  : option (R * R * R * R * list R) :=
  let n := n_nodes cfg in
  let Hl := map (Hs st) (seq 0 n) in
  match Hl with
  | [] => None
  | h0 :: Hr =>
      let avg := fold_left Rplus Hl 0 / INR n in
      let var := fold_left Rplus (map (fun x => (x - avg) ^ 2 / INR n) Hl) 0 in
      let mx := fold_left Rmax Hr h0 in
      let mn := fold_left Rmin Hr h0 in
      let opinions :=
        map (fun i => get_mc (mem_dict st i) (sd i))
          (filter (fun i => negb (match ckeys (mem_dict st i) with
                                  | [] => true | _ => false end))
             (seq 0 n)) in
      let frag :=
        map (fun a => INR (count_occ string_dec opinions (bits 5 a)) / INR n)
          (seq 0 32) in
      Some (avg, var, mx, mn, frag)
  end.

Definition push_stats (s : stats) (e : R * R * R * R * list R) : stats :=
  let '(a, v, mx, mn, fr) := e in
  mkStats (avgH s ++ [a]) (varH s ++ [v]) (maxH s ++ [mx]) (minH s ++ [mn])
    (opinion_frag s ++ [fr]).

(** [for itnum in range(num_rounds)], from round [itnum] on, [k] rounds
    left; [dr itnum i] and [sd itnum i] are the draws of round [itnum]. *)
Fixpoint run_loop (cfg : config) (liars truths : list nat)
  (dr : nat -> nat -> node_draws) (sd : nat -> nat -> nat -> nat)
  (itnum k : nat) (st : state) (acc : stats) : option (state * stats) :=
  match k with
  | O => Some (st, acc)
  | S k' =>
      let st' := fst (round cfg liars truths (dr itnum) st) in
      match round_stats cfg st' (sd itnum) with
      | None => None
      | Some e => run_loop cfg liars truths dr sd (S itnum) k' st' (push_stats acc e)
      end
  end.

(** [mem_dict[i][k] += 1; mem_list[i] += [k]] *)
Definition seed_mem (st : state) (i : nat) (k : code) : state :=
  mkState (fupd (mem_dict st) i (cincr (mem_dict st i) k))
    (fupd (mem_list st) i (mem_list st i ++ [k])) (Hs st).

(** Lines 180-207: empty memories, liars, truth-tellers, [init_person].
    Python raises [IndexError] at line 204 when [init_person >= n]; this
    model seeds the node anyway, so results about that case do not
    describe the program. *)
Definition init_state (liars truths : list nat) (init_person : nat) : state :=
  let st0 := mkState (fun _ => []) (fun _ => []) (fun _ => 0) in
  let st1 := fold_left (fun s l => seed_mem s l "11111"%string) liars st0 in
  let st2 := fold_left (fun s t => seed_mem s t "00000"%string) truths st1 in
  seed_mem st2 init_person "00000"%string.

(** [np.random.choice(pop, size, replace=False)]; [idx] are the positions
    drawn, NumPy raises when [size > len(pop)]. *)
Definition choice_wo (pop : list nat) (size : nat) (idx : list nat)
  : option (list nat) :=
  if (length pop <? size)%nat then None
  else Some (map (fun k => nth k pop 0%nat) idx).

Definition empty_stats : stats := mkStats [] [] [] [] [].

Definition liar_pool (n init_person : nat) : list nat :=
  filter (fun k => negb (k =? init_person)%nat) (seq 0 n).

Definition truth_pool (n init_person : nat) (liars : list nat) : list nat :=
  filter (fun k => negb (existsb (Nat.eqb k) liars) && negb (k =? init_person)%nat)
    (seq 0 n).

(** [run_rumors(init_person, edges, ..., K, Hmax, num_rounds, eta, ..., L,
    mcr, liarnum, truthnum)], without the image output. *)
Definition run_rumors (init_person : nat) (cfg : config)
  (num_rounds liarnum truthnum : nat) (liar_idx truth_idx : list nat)
  (dr : nat -> nat -> node_draws) (sd : nat -> nat -> nat -> nat)
  : option stats :=
  match choice_wo (liar_pool (n_nodes cfg) init_person) liarnum liar_idx with
  | None => None
  | Some liars =>
      match choice_wo (truth_pool (n_nodes cfg) init_person liars) truthnum truth_idx with
      | None => None
      | Some truths =>
          match run_loop cfg liars truths dr sd 0 num_rounds
                  (init_state liars truths init_person) empty_stats with
          | None => None
          | Some (_, s) => Some s
          end
      end
  end.

(** The memories of [run_loop]: the state after [k] rounds from round
    [itnum] on. *)
Fixpoint states (cfg : config) (liars truths : list nat)
  (dr : nat -> nat -> node_draws) (itnum k : nat) (st : state) : state :=
  match k with
  | O => st
  | S k' => states cfg liars truths dr (S itnum) k'
              (fst (round cfg liars truths (dr itnum) st))
  end.

Close Scope R_scope.

(** * Auxiliary definitions for the proofs *)

(** The draw with its diagonal zeroed on the first [k] rows. *)
Definition zd (E : mat nat) (k : nat) : mat nat :=
  fun a b => if (a =? b) && (a <? k) then 0 else E a b.

Definition sym (E : mat nat) : Prop := forall a b, E a b = E b a.

(** What [np.random.choice(range(n), m, replace=False, p=...)] returns:
    [m] distinct existing nodes. *)
Definition valid_sel (n m : nat) (s : list nat) : Prop :=
  length s = m /\ NoDup s /\ (forall x, In x s -> x < n).

(** The pairs [(i, j)] visited by the two loops of [calc_eta], in order. *)
Definition pairs (n : nat) : list (nat * nat) :=
  flat_map (fun i => map (fun j => (i, j)) (seq i (n - i))) (seq 0 n).

Definition pair_eq_dec : forall p q : nat * nat, {p = q} + {p <> q}.
Proof. decide equality; apply Nat.eq_dec. Defined.

(** Counter [c] and list [l] of a node memory agree: unique keys, positive
    counts, [c[k]] = occurrences of [k] in [l], and [sum(c.values())] =
    [len(l)]. *)
Definition wf (c : counter) (l : list code) : Prop :=
  NoDup (ckeys c) /\
  (forall k, cget c k = Z.of_nat (count_occ string_dec l k)) /\
  (forall p, In p c -> (0 < snd p)%Z) /\
  csum c = Z.of_nat (length l).

Definition delta (k x : code) : Z := if String.eqb k x then 1%Z else 0%Z.

(** [k] has the largest count of [c]. *)
Definition is_max (c : counter) (k : code) : Prop :=
  In k (ckeys c) /\ (forall k', In k' (ckeys c) -> (cget c k' <= cget c k)%Z).

(** Draws that NumPy can return: indices in range. *)
Definition valid_draws (d : node_draws) : Prop :=
  (forall b, (0 < b)%nat -> (d_pick d b < b)%nat) /\
  (forall ps, ps <> [] -> (d_weighted d ps < length ps)%nat).

(** [most_common] starts with a largest count. *)
Definition top_ok (l : list (code * Z)) : Prop :=
  match l with [] => True | h :: _ => forall p, In p l -> (snd p <= snd h)%Z end.

(** What node [i] computes in phase 1 of a round from the memories [st]. *)
Definition local_result (cfg : config) (liars truths : list nat)
  (dr : nat -> node_draws) (st : state) (i : nat)
  : counter * list code * R * option code :=
  node_local cfg (is_special liars truths i) (dr i)
    (mem_dict st i) (mem_list st i) (Hs st i).

(** The state after phase 1 has processed nodes [0 .. k-1], each from its
    memory in [st]. *)
Definition after_local (cfg : config) (liars truths : list nat)
  (dr : nat -> node_draws) (st : state) (k : nat) : state :=
  let res := local_result cfg liars truths dr st in
  mkState (fun i => if (i <? k)%nat then fst (fst (fst (res i))) else mem_dict st i)
    (fun i => if (i <? k)%nat then snd (fst (fst (res i))) else mem_list st i)
    (fun i => if (i <? k)%nat then snd (fst (res i)) else Hs st i).

(** The queue built by nodes [0 .. k-1] from their memories in [st]. *)
Definition queue_local (cfg : config) (liars truths : list nat)
  (dr : nat -> node_draws) (st : state) (k : nat) : nat -> list code :=
  fold_left
    (fun u i => match snd (local_result cfg liars truths dr st i) with
                | None => u
                | Some r => enqueue cfg liars truths (dr i) i r u
                end) (seq 0 k) (fun _ => []).

(** A round with the synchronous semantics of the specification: every node
    selects, mutates and broadcasts from its own memory as it was at the
    start of the round, and the queued insertions are applied only after
    every node has broadcast. *)
Definition round_sync (cfg : config) (liars truths : list nat)
  (dr : nat -> node_draws) (st : state) : state * (nat -> list code) :=
  let upd := queue_local cfg liars truths dr st (n_nodes cfg) in
  (apply_updates cfg (after_local cfg liars truths dr st (n_nodes cfg)) upd, upd).

(** Number of codes [init_state] seeds into the memory of node [i]. *)
Definition seeded (liars truths : list nat) (init_person i : nat) : nat :=
  count_occ Nat.eq_dec (liars ++ truths ++ [init_person]) i.

(** Number of rumors queued for node [i] in [k] rounds from [st]. *)
Fixpoint inserted (cfg : config) (liars truths : list nat)
  (dr : nat -> nat -> node_draws) (itnum k : nat) (st : state) (i : nat) : nat :=
  match k with
  | O => O
  | S k' =>
      let r := round cfg liars truths (dr itnum) st in
      length (snd r i) + inserted cfg liars truths dr (S itnum) k' (fst r) i
  end.

(** Every node memory agrees with its Counter and holds
    [min(t i, L)] codes. *)
Definition mem_inv (Lc : Z) (st : state) (t : nat -> nat) : Prop :=
  forall i, wf (mem_dict st i) (mem_list st i) /\
    Z.of_nat (length (mem_list st i)) = Z.min (Z.of_nat (t i)) Lc.

(** Two nodes joined by one edge, memory capacity [L = 0]. *)
Definition cfg_L0 : config :=
  mkConfig 2 (fun a b => if (a + b =? 1)%nat then 1%nat else 0%nat)
    (fun _ _ => 1%R) 1%R 5%R 0%Z true.

(** Draws that never mutate and always accept. *)
Definition dr_plain : nat -> nat -> node_draws :=
  fun _ _ => mkDraws (fun _ => 0%nat) (fun _ => 0%nat) (fun _ => false) 0%nat
               (fun _ _ => true).

Definition sd_plain : nat -> nat -> nat -> nat := fun _ _ _ => 0%nat.

(** The same graph with capacity [L = 1]. *)
Definition cfg_L1 : config :=
  mkConfig 2 (fun a b => if (a + b =? 1)%nat then 1%nat else 0%nat)
    (fun _ _ => 1%R) 1%R 5%R 1%Z true.

(** Draws that always mutate the first bit. *)
Definition dr_mutate : node_draws :=
  mkDraws (fun _ => 0%nat) (fun _ => 0%nat) (fun _ => true) 0%nat (fun _ _ => true).

(** A memory holding [00000] twice. *)
Definition c_twice : counter := cincr (cincr [] "00000"%string) "00000"%string.
Definition l_twice : list code := ["00000"; "00000"]%string.

(** The memory [{A:3, B:3}] of the spec's example, with A = 00000, B = 11111. *)
Definition c_tie : counter := [("00000", 3%Z); ("11111", 3%Z)]%string.

(** The 32 five-bit codes [format(a,'05b')], [a] in [range(32)]. *)
Definition all_codes : list code := map (bits 5) (seq 0 32).

(** A five-character string of [0]s and [1]s. *)
Definition is_bit (a : ascii) : bool := Ascii.eqb a "0" || Ascii.eqb a "1".

Fixpoint all_bits (s : string) : bool :=
  match s with
  | EmptyString => true
  | String a s' => is_bit a && all_bits s'
  end.

Definition is_code (s : code) : bool := (String.length s =? 5) && all_bits s.

(** Memories agree with their Counters and hold five-bit codes only. *)
Definition codes_inv (st : state) : Prop :=
  forall i, wf (mem_dict st i) (mem_list st i) /\
    Forall (fun s => is_code s = true) (mem_list st i).

(** Node [i] holds at least one rumor. *)
Definition holds_rumor (st : state) (i : nat) : bool :=
  match mem_list st i with [] => false | _ => true end.

(** [sum(H)] *)
Definition sumR (l : list R) : R := fold_left Rplus l 0%R.

(** A five-bit code, the bit at [b] flipped, and the same code back. *)
Definition flip_ok (r : code) (b : nat) : bool :=
  is_code (flip r b) &&
  forallb (fun p => (p =? b) ||
             match String.get p (flip r b), String.get p r with
             | Some x, Some y => Ascii.eqb x y
             | _, _ => false
             end) (seq 0 5) &&
  match String.get b (flip r b), String.get b r with
  | Some x, Some y => negb (Ascii.eqb x y)
  | _, _ => false
  end &&
  String.eqb (flip (flip r b) b) r.

(** A concrete [np.random.rand(5,5)] outcome: [9/10] on the listed pairs
    (both orientations), [1/10] elsewhere. *)
Definition edge_draw (es : list (nat * nat)) : mat Q :=
  fun a b =>
    if existsb (fun p => ((fst p =? a) && (snd p =? b)) || ((fst p =? b) && (snd p =? a))) es
    then (9#10)%Q else (1#10)%Q.

(** Seed graph 0-1, 1-2, 1-3, 2-3, 3-4 (degrees 1, 3, 2, 3, 1). *)
Definition draw_path : mat Q := edge_draw [(0,1); (1,2); (1,3); (2,3); (3,4)].

(** Seed graph 0-1 and the triangle 2-3-4 (degrees 1, 1, 2, 2, 2). *)
Definition draw_split : mat Q := edge_draw [(0,1); (2,3); (3,4); (2,4)].

(** The seeds [seed_phase] keeps for these draws. *)
Definition E_path : mat nat := fst (seed_rows (threshold (symmetrize draw_path)) 5).
Definition E_split : mat nat := fst (seed_rows (threshold (symmetrize draw_split)) 5).

(** [E_split] grown by one node attached to nodes 0 and 2. *)
Definition E_grow : mat nat := grow E_split 5 [0; 2].

(** * Proofs about [generate_new_graph] *)

Module GraphFacts.

Lemma fold_plus_shift (f : nat -> nat) (l : list nat) (a : nat) :
  fold_left (fun s j => s + f j) l a = a + fold_left (fun s j => s + f j) l 0.
Proof.
  revert a; induction l as [|x l IH]; intros a; simpl; [lia|].
  rewrite IH. symmetry. rewrite IH. lia.
Qed.

Lemma row_sum_S (M : mat nat) (n i : nat) :
  row_sum M (S n) i = row_sum M n i + M i n.
Proof.
  unfold row_sum. rewrite seq_S, fold_left_app. simpl. reflexivity.
Qed.

Lemma row_sum_ext (M M' : mat nat) (n i : nat) :
  (forall b, b < n -> M i b = M' i b) -> row_sum M n i = row_sum M' n i.
Proof.
  induction n as [|n IH]; intros Hb; [reflexivity|].
  rewrite !row_sum_S, IH by (intros; apply Hb; lia). rewrite Hb by lia. reflexivity.
Qed.

Lemma row_sum_pos (M : mat nat) (n i : nat) :
  0 < row_sum M n i <-> exists b, b < n /\ M i b <> 0.
Proof.
  induction n as [|n IH]; simpl.
  - split; [cbn; lia | intros (b & Hb & _); lia].
  - rewrite row_sum_S. split.
    + intros Hp. destruct (Nat.eq_dec (M i n) 0) as [H0|H0].
      * destruct (proj1 IH ltac:(lia)) as (b & Hb & Hne). exists b; split; [lia|auto].
      * exists n; split; [lia|auto].
    + intros (b & Hb & Hne). destruct (Nat.eq_dec b n) as [->|Hbn]; [lia|].
      assert (0 < row_sum M n i) by (apply IH; exists b; split; [lia|auto]). lia.
Qed.

Lemma flatnonzero_spec (M : mat nat) (n i j : nat) :
  In j (flatnonzero M n i) <-> j < n /\ M i j <> 0.
Proof.
  unfold flatnonzero. rewrite filter_In, in_seq.
  destruct (M i j =? 0) eqn:E; simpl.
  - apply Nat.eqb_eq in E. split; [intros [_ H]; discriminate | intros [_ H]; contradiction].
  - apply Nat.eqb_neq in E. split; [intros [H _]; split; [lia|auto] | intros [H _]; split; [lia|auto]].
Qed.

Lemma flatnonzero_nonempty (M : mat nat) (n i : nat) :
  0 < row_sum M n i -> flatnonzero M n i <> [].
Proof.
  intros Hp Hnil. apply row_sum_pos in Hp. destruct Hp as (b & Hb & Hne).
  assert (In b (flatnonzero M n i)) by (apply flatnonzero_spec; auto).
  rewrite Hnil in H. contradiction.
Qed.

(** ** Seed phase *)

Lemma mupd_zd (E : mat nat) (s : nat) : mupd (zd E s) s s 0 = zd E (S s).
Proof.
  apply functional_extensionality; intros a; apply functional_extensionality; intros b.
  unfold mupd, zd.
  destruct (a =? s) eqn:Ha, (b =? s) eqn:Hb, (a =? b) eqn:Hab, (a <? s) eqn:Hl,
    (a <? S s) eqn:Hl'; simpl;
  repeat match goal with
         | H : (_ =? _) = true |- _ => apply Nat.eqb_eq in H
         | H : (_ =? _) = false |- _ => apply Nat.eqb_neq in H
         | H : (_ <? _) = true |- _ => apply Nat.ltb_lt in H
         | H : (_ <? _) = false |- _ => apply Nat.ltb_ge in H
         end; subst; try reflexivity; try lia.
Qed.

Lemma seed_rows_fold (E : mat nat) (m0 s len : nat) (rep : bool) :
  fold_left
    (fun (acc : mat nat * bool) i =>
       let E' := mupd (fst acc) i i 0 in
       (E', snd acc || (row_sum E' m0 i =? 0)))
    (seq s len) (zd E s, rep)
  = (zd E (s + len),
     rep || existsb (fun i => row_sum (zd E (S i)) m0 i =? 0) (seq s len)).
Proof.
  revert s rep; induction len as [|len IH]; intros s rep; simpl.
  - rewrite Nat.add_0_r, orb_false_r. reflexivity.
  - rewrite mupd_zd, IH. f_equal; [f_equal; lia | symmetry; apply orb_assoc].
Qed.

Lemma zd_0 (E : mat nat) : zd E 0 = E.
Proof.
  apply functional_extensionality; intros a; apply functional_extensionality; intros b.
  unfold zd. rewrite andb_false_r. reflexivity.
Qed.

Lemma seed_rows_eq (E : mat nat) (m0 : nat) :
  seed_rows E m0 =
  (zd E m0, existsb (fun i => row_sum (zd E (S i)) m0 i =? 0) (seq 0 m0)).
Proof.
  unfold seed_rows. rewrite <- (zd_0 E) at 1. rewrite seed_rows_fold. reflexivity.
Qed.

Lemma Qle_bool_eq (x y z : Q) : (x == y)%Q -> Qle_bool x z = Qle_bool y z.
Proof.
  intros Hxy. destruct (Qle_bool x z) eqn:H1, (Qle_bool y z) eqn:H2; auto.
  - apply Qle_bool_iff in H1. rewrite Hxy in H1. apply Qle_bool_iff in H1. congruence.
  - apply Qle_bool_iff in H2. rewrite <- Hxy in H2. apply Qle_bool_iff in H2. congruence.
Qed.

Lemma threshold_sym (d : mat Q) : sym (threshold (symmetrize d)).
Proof.
  intros a b. unfold threshold, symmetrize.
  rewrite (Qle_bool_eq _ ((1#2) * d b a + (1#2) * d a b)); [reflexivity|].
  apply Qplus_comm.
Qed.

Lemma zd_sym (E : mat nat) (k : nat) : sym E -> sym (zd E k).
Proof.
  intros HE a b. unfold zd. rewrite (Nat.eqb_sym b a).
  destruct (a =? b) eqn:Hab; simpl; [|apply HE].
  apply Nat.eqb_eq in Hab; subst; reflexivity.
Qed.

(** A seed that is returned has no isolated node and is symmetric. *)
Lemma seed_phase_ok (m0 : nat) (draws : list (mat Q)) (E : mat nat) :
  seed_phase m0 draws = Some E ->
  sym E /\ forall i, i < m0 -> 0 < row_sum E m0 i.
Proof.
  induction draws as [|d ds IH]; simpl; [discriminate|].
  rewrite seed_rows_eq. simpl.
  destruct (existsb _ _) eqn:Hex; [exact IH|].
  intros Heq; injection Heq as <-. split; [apply zd_sym, threshold_sym|].
  intros i Hi.
  assert (Hne : (row_sum (zd (threshold (symmetrize d)) (S i)) m0 i =? 0) = false).
  { destruct (row_sum _ m0 i =? 0) eqn:Hr; [|reflexivity].
    rewrite <- Hex. symmetry. apply existsb_exists.
    exists i; split; [apply in_seq; lia | exact Hr]. }
  apply Nat.eqb_neq in Hne.
  rewrite (row_sum_ext _ (zd (threshold (symmetrize d)) (S i))); [lia|].
  intros b Hb. unfold zd.
  destruct (i =? b); simpl; [|reflexivity].
  replace (i <? m0) with true by (symmetry; apply Nat.ltb_lt; lia).
  replace (i <? S i) with true by (symmetry; apply Nat.ltb_lt; lia). reflexivity.
Qed.

(** ** Growth phase *)

Lemma row_sum_indicator (f : nat -> bool) (n i : nat) :
  row_sum (fun _ b => if f b then 1 else 0) n i = length (filter f (seq 0 n)).
Proof.
  induction n as [|n IH]; [reflexivity|].
  rewrite row_sum_S, IH, seq_S, filter_app, length_app. simpl.
  destruct (f n); simpl; lia.
Qed.

Lemma grow_old_row (E : mat nat) (n : nat) (sel : list nat) (i : nat) :
  i < n ->
  row_sum (grow E n sel) (S n) i
  = row_sum E n i + (if existsb (Nat.eqb i) sel then 1 else 0).
Proof.
  intros Hi. rewrite row_sum_S. f_equal.
  - apply row_sum_ext. intros b Hb. unfold grow.
    replace (i <? n) with true by (symmetry; apply Nat.ltb_lt; lia).
    replace (b <? n) with true by (symmetry; apply Nat.ltb_lt; lia). reflexivity.
  - unfold grow. rewrite Nat.ltb_irrefl, Nat.eqb_refl, andb_false_r.
    replace (i <? n) with true by (symmetry; apply Nat.ltb_lt; lia). reflexivity.
Qed.

Lemma grow_new_row (E : mat nat) (n : nat) (sel : list nat) :
  row_sum (grow E n sel) (S n) n
  = length (filter (fun b => existsb (Nat.eqb b) sel) (seq 0 n)).
Proof.
  rewrite row_sum_S.
  replace (grow E n sel n n) with 0
    by (unfold grow; rewrite Nat.ltb_irrefl, Nat.eqb_refl; reflexivity).
  rewrite Nat.add_0_r, <- (row_sum_indicator _ n n).
  apply row_sum_ext. intros b Hb. unfold grow.
  rewrite Nat.ltb_irrefl, Nat.eqb_refl. simpl.
  replace (b <? n) with true by (symmetry; apply Nat.ltb_lt; lia).
  destruct (b =? n) eqn:Hbn; [apply Nat.eqb_eq in Hbn; lia|reflexivity].
Qed.

Lemma grow_sym (E : mat nat) (n : nat) (sel : list nat) :
  sym E -> sym (grow E n sel).
Proof.
  intros HE a b. unfold grow.
  destruct (a <? n) eqn:Ha, (b <? n) eqn:Hb, (a =? n) eqn:Ha', (b =? n) eqn:Hb';
    simpl; auto;
  repeat match goal with
         | H : (_ =? _) = true |- _ => apply Nat.eqb_eq in H
         | H : (_ <? _) = true |- _ => apply Nat.ltb_lt in H
         end; subst; try lia; auto.
Qed.

Lemma valid_sel_count (n m : nat) (sel : list nat) :
  valid_sel n m sel ->
  m <= length (filter (fun b => existsb (Nat.eqb b) sel) (seq 0 n)).
Proof.
  intros (Hlen & Hnd & Hlt). rewrite <- Hlen. apply NoDup_incl_length; [exact Hnd|].
  intros x Hx. apply filter_In. split; [apply in_seq; specialize (Hlt x Hx); lia|].
  apply existsb_exists. exists x; split; [exact Hx | apply Nat.eqb_refl].
Qed.

Lemma growth_spec (E : mat nat) (n m : nat) (sels : nat -> list nat)
  (t T : nat) (E' : mat nat) (n' : nat) :
  growth E n m sels t T = Some (E', n') ->
  n' = n + T /\ (sym E -> sym E') /\
  (forall i, i < n -> row_sum E n i <= row_sum E' n' i) /\
  ((forall s, s < T -> valid_sel (n + s) m (sels (t + s))) ->
   forall s, s < T -> m <= row_sum E' n' (n + s)).
Proof.
  revert E n t. induction T as [|T IH]; intros E n t; simpl.
  - intros Heq; injection Heq as <- <-.
    split; [lia|]. split; [auto|]. split; [auto|]. intros _ s Hs; lia.
  - unfold growth_step.
    destruct (length _ <? m); [discriminate|].
    intros Hg. destruct (IH _ _ _ Hg) as (Hn & Hsym & Hmono & Hnew).
    split; [lia|]. split; [intros HE; apply Hsym, grow_sym, HE|].
    split.
    + intros i Hi. rewrite <- Hmono by lia. rewrite grow_old_row by exact Hi. lia.
    + intros Hv s Hs. destruct s as [|s].
      * rewrite Nat.add_0_r. rewrite <- Hmono by lia. rewrite grow_new_row.
        apply valid_sel_count. specialize (Hv 0 ltac:(lia)).
        rewrite !Nat.add_0_r in Hv. exact Hv.
      * replace (n + S s) with (S n + s) by lia. apply Hnew; [|lia].
        intros s' Hs'. replace (S n + s') with (n + S s') by lia.
        replace (S t + s') with (t + S s') by lia. apply Hv; lia.
Qed.

Lemma generate_parts (beta : R) (T m0 m : nat) (draws : list (mat Q))
  (sels : nat -> list nat) (M : mat R) (E : mat nat) :
  generate_new_graph beta T m0 m draws sels = Some (M, E) ->
  exists E0, seed_phase m0 draws = Some E0 /\
    growth E0 m0 m sels 0 T = Some (E, m0 + T) /\
    calc_eta beta E (m0 + T) = Some M.
Proof.
  unfold generate_new_graph.
  destruct (seed_phase m0 draws) as [E0|] eqn:Hs; [|discriminate].
  destruct (growth E0 m0 m sels 0 T) as [[E1 n1]|] eqn:Hg; [|discriminate].
  destruct (calc_eta beta E1 n1) as [M1|] eqn:Hc; [|discriminate].
  intros Heq; injection Heq as <- <-.
  destruct (growth_spec _ _ _ _ _ _ _ _ Hg) as (-> & _).
  exists E0. auto.
Qed.

(** Every node of a generated graph has a neighbour, and the graph is
    symmetric. *)
Lemma generate_graph_ok (beta : R) (T m0 m : nat) (draws : list (mat Q))
  (sels : nat -> list nat) (M : mat R) (E : mat nat) :
  1 <= m ->
  (forall t, t < T -> valid_sel (m0 + t) m (sels t)) ->
  generate_new_graph beta T m0 m draws sels = Some (M, E) ->
  sym E /\ (forall i, i < m0 + T -> 1 <= row_sum E (m0 + T) i) /\
  (forall t, t < T -> m <= row_sum E (m0 + T) (m0 + t)).
Proof.
  intros Hm Hv Hgen.
  destruct (generate_parts _ _ _ _ _ _ _ _ Hgen) as (E0 & Hs & Hg & _).
  destruct (seed_phase_ok _ _ _ Hs) as (Hsym0 & Hpos0).
  destruct (growth_spec _ _ _ _ _ _ _ _ Hg) as (_ & Hsym & Hmono & Hnew).
  assert (Hnew' : forall t, t < T -> m <= row_sum E (m0 + T) (m0 + t))
    by (apply Hnew; intros s Hs'; apply Hv; exact Hs').
  split; [apply Hsym, Hsym0|]. split; [|exact Hnew'].
  intros i Hi. destruct (Nat.lt_ge_cases i m0) as [Hlt|Hge].
  - specialize (Hpos0 i Hlt). specialize (Hmono i Hlt). lia.
  - replace i with (m0 + (i - m0)) by lia.
    specialize (Hnew' (i - m0) ltac:(lia)). lia.
Qed.

(** ** Trust matrix *)

Lemma fold_left_map_fun {A B C} (f : A -> B -> A) (g : C -> B) (l : list C) (a : A) :
  fold_left f (map g l) a = fold_left (fun acc x => f acc (g x)) l a.
Proof. revert a; induction l; simpl; auto. Qed.

Lemma calc_eta_pairs (beta : R) (E : mat nat) (n : nat) :
  calc_eta beta E n = fold_left (eta_step beta E n) (pairs n) (Some (fun _ _ => 0%R)).
Proof.
  unfold calc_eta, pairs. generalize (Some (fun _ _ : nat => 0%R) : option (mat R)).
  induction (seq 0 n) as [|i is IH]; intros o; simpl; [reflexivity|].
  rewrite fold_left_app, fold_left_map_fun. apply IH.
Qed.

Lemma in_pairs (n p q : nat) : In (p, q) (pairs n) <-> p <= q /\ q < n.
Proof.
  unfold pairs. rewrite in_flat_map. split.
  - intros (i & Hi & Hm). apply in_map_iff in Hm. destruct Hm as (j & Hij & Hj).
    injection Hij as <- <-. apply in_seq in Hi. apply in_seq in Hj. lia.
  - intros [Hpq Hq]. exists p. split; [apply in_seq; lia|].
    apply in_map_iff. exists q. split; [reflexivity|]. apply in_seq; lia.
Qed.

Lemma eta_fold_none (beta : R) (E : mat nat) (n : nat) (ps : list (nat * nat)) :
  fold_left (eta_step beta E n) ps None = None.
Proof. induction ps; simpl; auto. Qed.

Lemma eta_step_some (beta : R) (E : mat nat) (n : nat) (M : mat R) (i j : nat) (v : R) :
  eta_entry beta E n i j = Some v ->
  eta_step beta E n (Some M) (i, j) = Some (mupd (mupd M i j v) j i v).
Proof.
  intros He. unfold eta_step. simpl. rewrite He. unfold mupd at 3.
  rewrite !Nat.eqb_refl. reflexivity.
Qed.

Lemma eta_step_none (beta : R) (E : mat nat) (n : nat) (M : mat R) (i j : nat) :
  eta_entry beta E n i j = None -> eta_step beta E n (Some M) (i, j) = None.
Proof. intros He. unfold eta_step. simpl. rewrite He. reflexivity. Qed.

Lemma eta_fold_spec (beta : R) (E : mat nat) (n : nat) (ps : list (nat * nat))
  (M0 M : mat R) :
  (forall p, In p ps -> fst p <= snd p) ->
  fold_left (eta_step beta E n) ps (Some M0) = Some M ->
  forall a b,
    (In (Nat.min a b, Nat.max a b) ps ->
     eta_entry beta E n (Nat.min a b) (Nat.max a b) = Some (M a b)) /\
    (~ In (Nat.min a b, Nat.max a b) ps -> M a b = M0 a b).
Proof.
  revert M0. induction ps as [|[i j] ps IH]; intros M0 Hord Hf a b;
    cbn [fold_left In] in *.
  - injection Hf as <-. split; [intros []|auto].
  - destruct (eta_entry beta E n i j) as [v|] eqn:He;
      [rewrite (eta_step_some _ _ _ _ _ _ _ He) in Hf
      |rewrite (eta_step_none _ _ _ _ _ _ He), eta_fold_none in Hf; discriminate].
    assert (Hij : i <= j) by (apply (Hord (i, j)); auto).
    specialize (IH _ (fun p Hp => Hord p (or_intror Hp)) Hf a b).
    destruct IH as [IH1 IH2].
    destruct (in_dec (pair_eq_dec) (Nat.min a b, Nat.max a b) ps)
      as [Hin|Hnin].
    + split; [intros _; apply IH1, Hin | intros Hn; exfalso; apply Hn; auto].
    + rewrite (IH2 Hnin). unfold mupd.
      destruct (pair_eq_dec (Nat.min a b, Nat.max a b) (i, j))
        as [Heq|Hne].
      * injection Heq as Hmin Hmax.
        assert (Hab : (a = i /\ b = j) \/ (a = j /\ b = i)) by lia.
        split; [intros _ | intros Hn; exfalso; apply Hn; left; congruence].
        rewrite Hmin, Hmax, He.
        destruct Hab as [[-> ->]|[-> ->]]; rewrite !Nat.eqb_refl; simpl;
          [destruct (_ && _)|]; reflexivity.
      * split.
        -- intros [Hp|Hp]; [exfalso; apply Hne; congruence | contradiction].
        -- intros _.
           destruct (a =? j) eqn:Haj, (b =? i) eqn:Hbi; simpl;
           destruct (a =? i) eqn:Hai, (b =? j) eqn:Hbj; simpl; auto;
           repeat match goal with
                  | H : (_ =? _) = true |- _ => apply Nat.eqb_eq in H
                  end; subst; exfalso; apply Hne; f_equal; lia.
Qed.

(** Entry [eta[a,b]] is the one computed for [(min a b, max a b)]. *)
Lemma calc_eta_spec (beta : R) (E : mat nat) (n : nat) (M : mat R) :
  calc_eta beta E n = Some M ->
  forall a b, a < n -> b < n ->
  eta_entry beta E n (Nat.min a b) (Nat.max a b) = Some (M a b).
Proof.
  rewrite calc_eta_pairs. intros Hc a b Ha Hb.
  apply (eta_fold_spec beta E n (pairs n) (fun _ _ => 0%R) M); auto.
  - intros [p q] Hp. apply in_pairs in Hp. simpl; lia.
  - apply in_pairs. lia.
Qed.

Lemma eta_entry_some (beta : R) (E : mat nat) (n i j : nat) :
  flatnonzero E n i <> [] -> exists v, eta_entry beta E n i j = Some v.
Proof.
  unfold eta_entry. destruct (flatnonzero E n i); [congruence|]. simpl. eauto.
Qed.

Lemma calc_eta_some (beta : R) (E : mat nat) (n : nat) :
  (forall i, i < n -> flatnonzero E n i <> []) ->
  exists M, calc_eta beta E n = Some M.
Proof.
  intros Hne. rewrite calc_eta_pairs.
  assert (Hps : forall p, In p (pairs n) -> fst p < n)
    by (intros [p q] Hp; apply in_pairs in Hp; simpl; lia).
  generalize (fun _ _ : nat => 0%R). revert Hps. generalize (pairs n).
  induction l as [|[i j] ps IH]; intros Hps M0; cbn [fold_left]; [eauto|].
  assert (Hi : flatnonzero E n i <> []) by (apply Hne, (Hps (i, j)); now left).
  destruct (eta_entry_some beta E n i j Hi) as [v Hv].
  rewrite (eta_step_some _ _ _ _ _ _ _ Hv). apply IH. intros p Hp; apply Hps; now right.
Qed.

Open Scope R_scope.

Lemma pw_pos (d : nat) (beta : R) : 0 < pw d beta.
Proof. unfold pw, Rpower. apply exp_pos. Qed.

Lemma fold_Rmax_ge (l : list R) (x : R) :
  x <= fold_left Rmax l x /\ (forall y, In y l -> y <= fold_left Rmax l x).
Proof.
  revert x; induction l as [|y l IH]; intros x; simpl.
  - split; [apply Rle_refl | intros _ []].
  - destruct (IH (Rmax x y)) as [H1 H2]. split.
    + eapply Rle_trans; [apply Rmax_l | exact H1].
    + intros z [<-|Hz]; [eapply Rle_trans; [apply Rmax_r | exact H1] | auto].
Qed.

Lemma eta_entry_pos (beta : R) (E : mat nat) (n i j : nat) (v : R) :
  eta_entry beta E n i j = Some v -> 0 < v.
Proof.
  unfold eta_entry. destruct (flatnonzero E n i) as [|k ks]; simpl; [discriminate|].
  intros Hv; injection Hv as <-.
  destruct (fold_Rmax_ge (map (fun k0 => pw (row_sum E n k0) beta) ks)
              (pw (row_sum E n k) beta)) as [H1 _].
  apply Rdiv_lt_0_compat; [apply pw_pos|].
  eapply Rlt_le_trans; [apply pw_pos | exact H1].
Qed.

Lemma eta_entry_le_1 (beta : R) (E : mat nat) (n i j : nat) (v : R) :
  In j (flatnonzero E n i) -> eta_entry beta E n i j = Some v -> v <= 1.
Proof.
  unfold eta_entry. intros Hj.
  destruct (flatnonzero E n i) as [|k ks]; simpl; [contradiction|].
  intros Hv; injection Hv as <-.
  destruct (fold_Rmax_ge (map (fun k0 => pw (row_sum E n k0) beta) ks)
              (pw (row_sum E n k) beta)) as [H1 H2].
  set (mx := fold_left Rmax _ _) in *.
  assert (Hmx : 0 < mx) by (eapply Rlt_le_trans; [apply pw_pos | exact H1]).
  assert (Hle : pw (row_sum E n j) beta <= mx).
  { destruct Hj as [<-|Hj]; [exact H1|].
    apply H2. apply in_map_iff. eauto. }
  unfold Rdiv. rewrite <- (Rinv_r mx) by lra.
  apply Rmult_le_compat_r; [left; apply Rinv_0_lt_compat, Hmx | exact Hle].
Qed.

Close Scope R_scope.

Lemma generate_sym (beta : R) (T m0 m : nat) (draws : list (mat Q))
  (sels : nat -> list nat) (M : mat R) (E : mat nat) :
  generate_new_graph beta T m0 m draws sels = Some (M, E) -> sym E.
Proof.
  intros Hgen. destruct (generate_parts _ _ _ _ _ _ _ _ Hgen) as (E0 & Hs & Hg & _).
  destruct (seed_phase_ok _ _ _ Hs) as [Hsym0 _].
  destruct (growth_spec _ _ _ _ _ _ _ _ Hg) as (_ & Hsym & _). auto.
Qed.

(** ** Concrete runs of [generate_new_graph] *)

Ltac rows_nonempty :=
  intros i Hi; apply flatnonzero_nonempty;
  repeat (destruct i as [|i]; [apply Nat.ltb_lt; reflexivity|]); lia.

Lemma gen_path :
  exists M, calc_eta 1 E_path 5 = Some M /\
    generate_new_graph 1 0 5 2 [draw_path] (fun _ => []) = Some (M, E_path).
Proof.
  destruct (calc_eta_some 1 E_path 5) as [M HM]; [rows_nonempty|].
  exists M. split; [exact HM|]. unfold generate_new_graph.
  replace (seed_phase 5 [draw_path]) with (Some E_path) by reflexivity.
  change (growth E_path 5 2 (fun _ => []) 0 0) with (Some (E_path, 5)).
  cbv beta iota zeta. rewrite HM. reflexivity.
Qed.

Lemma gen_split :
  exists M, calc_eta 1 E_split 5 = Some M /\
    generate_new_graph 1 0 5 2 [draw_split] (fun _ => []) = Some (M, E_split).
Proof.
  destruct (calc_eta_some 1 E_split 5) as [M HM]; [rows_nonempty|].
  exists M. split; [exact HM|]. unfold generate_new_graph.
  replace (seed_phase 5 [draw_split]) with (Some E_split) by reflexivity.
  change (growth E_split 5 2 (fun _ => []) 0 0) with (Some (E_split, 5)).
  cbv beta iota zeta. rewrite HM. reflexivity.
Qed.

Lemma gen_grow :
  exists M, generate_new_graph 1 1 5 2 [draw_split] (fun _ => [0; 2]) = Some (M, E_grow).
Proof.
  destruct (calc_eta_some 1 E_grow 6) as [M HM]; [rows_nonempty|].
  exists M. unfold generate_new_graph.
  replace (seed_phase 5 [draw_split]) with (Some E_split) by reflexivity.
  replace (growth E_split 5 2 (fun _ => [0; 2]) 0 1) with (Some (E_grow, 6))
    by reflexivity.
  cbv beta iota zeta. rewrite HM. reflexivity.
Qed.

Open Scope R_scope.

Lemma pw_1 (d : nat) : (0 < d)%nat -> pw d 1 = INR d.
Proof. intros Hd. unfold pw. apply Rpower_1, lt_0_INR, Hd. Qed.

Ltac eval_INR := repeat rewrite S_INR; rewrite ?INR_0.

Lemma path_eta_01 : eta_entry 1 E_path 5 0 1 = Some 1.
Proof.
  unfold eta_entry.
  replace (flatnonzero E_path 5 0) with [1%nat] by reflexivity.
  cbn [map max_list fold_left].
  replace (row_sum E_path 5 1) with 3%nat by reflexivity.
  rewrite pw_1 by lia. f_equal. eval_INR. field.
Qed.

Lemma path_eta_10 : eta_entry 1 E_path 5 1 0 = Some (1 / 3).
Proof.
  unfold eta_entry.
  replace (flatnonzero E_path 5 1) with [0%nat; 2%nat; 3%nat] by reflexivity.
  cbn [map max_list fold_left].
  replace (row_sum E_path 5 0) with 1%nat by reflexivity.
  replace (row_sum E_path 5 2) with 2%nat by reflexivity.
  replace (row_sum E_path 5 3) with 3%nat by reflexivity.
  rewrite !pw_1 by lia. eval_INR.
  rewrite (Rmax_right (0 + 1) (0 + 1 + 1)) by lra.
  rewrite Rmax_right by lra. f_equal. field.
Qed.

Lemma split_eta_02 : eta_entry 1 E_split 5 0 2 = Some 2.
Proof.
  unfold eta_entry.
  replace (flatnonzero E_split 5 0) with [1%nat] by reflexivity.
  cbn [map max_list fold_left].
  replace (row_sum E_split 5 1) with 1%nat by reflexivity.
  replace (row_sum E_split 5 2) with 2%nat by reflexivity.
  rewrite !pw_1 by lia. eval_INR. f_equal. field.
Qed.

Close Scope R_scope.

End GraphFacts.

(** * Proofs about node memories and [run_rumors] *)

Module MemFacts.

Local Open Scope Z_scope.

Lemma cget_cset (c : counter) (k k' : code) (v : Z) :
  cget (cset c k v) k' = if String.eqb k' k then v else cget c k'.
Proof.
  induction c as [|[x w] c IH]; simpl.
  - destruct (String.eqb k' k); reflexivity.
  - destruct (String.eqb k x) eqn:Hkx; simpl.
    + apply String.eqb_eq in Hkx; subst x.
      destruct (String.eqb k' k); reflexivity.
    + rewrite IH. destruct (String.eqb k' x) eqn:Hk'x; [|reflexivity].
      apply String.eqb_eq in Hk'x; subst x.
      destruct (String.eqb k' k) eqn:E; [|reflexivity].
      apply String.eqb_eq in E; subst. rewrite String.eqb_refl in Hkx. discriminate.
Qed.

Lemma ckeys_cset (c : counter) (k : code) (v : Z) :
  ckeys (cset c k v) = if in_dec string_dec k (ckeys c) then ckeys c else ckeys c ++ [k].
Proof.
  induction c as [|[x w] c IH]; simpl; [reflexivity|].
  destruct (String.eqb k x) eqn:Hkx; simpl.
  - apply String.eqb_eq in Hkx; subst x.
    destruct (string_dec k k); [reflexivity|congruence].
  - apply String.eqb_neq in Hkx. rewrite IH.
    destruct (string_dec x k) as [E|E]; [congruence|].
    destruct (in_dec string_dec k (ckeys c)); reflexivity.
Qed.

Lemma nodup_cset (c : counter) (k : code) (v : Z) :
  NoDup (ckeys c) -> NoDup (ckeys (cset c k v)).
Proof.
  intros Hnd. rewrite ckeys_cset. destruct (in_dec string_dec k (ckeys c)) as [_|Hn];
    [exact Hnd|].
  apply NoDup_app; [exact Hnd | repeat constructor; auto |].
  intros x Hx [<-|[]]. contradiction.
Qed.

Lemma in_cset (c : counter) (k : code) (v : Z) (p : code * Z) :
  In p (cset c k v) -> p = (k, v) \/ In p c.
Proof.
  induction c as [|[x w] c IH]; simpl.
  - intros [<-|[]]; left; reflexivity.
  - destruct (String.eqb k x) eqn:E; simpl.
    + apply String.eqb_eq in E; subst x.
      intros [<-|Hp]; [left; reflexivity | right; right; exact Hp].
    + intros [<-|Hp]; [right; left; reflexivity|].
      destruct (IH Hp); [left | right; right]; assumption.
Qed.

Lemma in_cdel (c : counter) (k : code) (p : code * Z) : In p (cdel c k) -> In p c.
Proof.
  induction c as [|[x w] c IH]; simpl; [auto|].
  destruct (String.eqb k x); simpl; [auto|]. intros [<-|Hp]; auto.
Qed.

Lemma in_cdel_key (c : counter) (k : code) (p : code * Z) :
  NoDup (ckeys c) -> In p (cdel c k) -> fst p <> k.
Proof.
  induction c as [|[x w] c IH]; simpl; [tauto|].
  intros Hnd. inversion Hnd as [|? ? Hx Hnd']; subst.
  destruct (String.eqb k x) eqn:E; simpl.
  - apply String.eqb_eq in E; subst x. intros Hin <-. apply Hx.
    apply in_map_iff. exists p. auto.
  - apply String.eqb_neq in E. intros [<-|Hin]; [simpl; congruence | apply IH; assumption].
Qed.

Lemma ckeys_cdel_sub (c : counter) (k : code) :
  exists pre post, ckeys c = pre ++ post /\
    (ckeys (cdel c k) = pre ++ post \/ ckeys (cdel c k) = pre ++ tl post).
Proof.
  induction c as [|[x w] c IH]; simpl.
  - exists [], []. auto.
  - destruct (String.eqb k x).
    + exists [], (x :: ckeys c). simpl. auto.
    + destruct IH as (pre & post & E & H). exists (x :: pre), post. simpl.
      rewrite E. split; [reflexivity|]. destruct H as [H|H]; rewrite H; auto.
Qed.

Lemma nodup_cdel (c : counter) (k : code) :
  NoDup (ckeys c) -> NoDup (ckeys (cdel c k)).
Proof.
  induction c as [|[x w] c IH]; simpl; [auto|].
  intros Hnd. inversion Hnd as [|? ? Hx Hnd']; subst.
  destruct (String.eqb k x); simpl; [exact Hnd'|].
  constructor; [|apply IH, Hnd'].
  intros Hin. apply Hx. apply in_map_iff in Hin. destruct Hin as ([y w'] & <- & Hy).
  apply in_map_iff. exists (y, w'). split; [reflexivity | apply (in_cdel _ k), Hy].
Qed.

Lemma cget_cdel (c : counter) (k k' : code) :
  NoDup (ckeys c) ->
  cget (cdel c k) k' = if String.eqb k' k then 0 else cget c k'.
Proof.
  induction c as [|[x w] c IH]; simpl; intros Hnd.
  - destruct (String.eqb k' k); reflexivity.
  - inversion Hnd as [|? ? Hx Hnd']; subst.
    destruct (String.eqb k x) eqn:Hkx; simpl.
    + apply String.eqb_eq in Hkx; subst x.
      destruct (String.eqb k' k) eqn:E; [|reflexivity].
      apply String.eqb_eq in E; subst k'.
      clear IH Hnd Hnd'. induction c as [|[y u] c IHc]; simpl; [reflexivity|].
      destruct (String.eqb k y) eqn:Ey.
      * apply String.eqb_eq in Ey; subst. exfalso; apply Hx; left; reflexivity.
      * apply IHc. intros Hin; apply Hx; right; exact Hin.
    + rewrite IH by exact Hnd'.
      destruct (String.eqb k' x) eqn:Ek'x, (String.eqb k' k) eqn:Ek'k; auto.
      apply String.eqb_eq in Ek'x, Ek'k; subst. rewrite String.eqb_refl in Hkx.
      discriminate.
Qed.

Lemma sum_shift (l : list Z) (a : Z) : fold_left Z.add l a = a + fold_left Z.add l 0.
Proof.
  revert a; induction l as [|x l IH]; intros a; simpl; [lia|].
  rewrite (IH (a + x)), (IH x). lia.
Qed.

Lemma csum_cons (k : code) (v : Z) (c : counter) : csum ((k, v) :: c) = v + csum c.
Proof. unfold csum. simpl. rewrite sum_shift. lia. Qed.

Lemma csum_cset (c : counter) (k : code) (v : Z) :
  csum (cset c k v) = csum c - cget c k + v.
Proof.
  induction c as [|[x w] c IH]; simpl.
  - rewrite csum_cons. unfold csum. simpl. lia.
  - destruct (String.eqb k x); rewrite !csum_cons; [lia|]. rewrite IH. lia.
Qed.

Lemma csum_cdel (c : counter) (k : code) : csum (cdel c k) = csum c - cget c k.
Proof.
  induction c as [|[x w] c IH]; simpl; [unfold csum; simpl; lia|].
  destruct (String.eqb k x); rewrite ?csum_cons; [lia|]. rewrite IH. lia.
Qed.

Lemma cget_nonneg (c : counter) (k : code) :
  (forall p, In p c -> 0 < snd p) -> 0 <= cget c k.
Proof.
  induction c as [|[x w] c IH]; simpl; intros Hp; [lia|].
  destruct (String.eqb k x); [specialize (Hp (x, w) (or_introl eq_refl)); simpl in Hp; lia|].
  apply IH. intros p Hin; apply Hp; right; exact Hin.
Qed.

Lemma cget_pos_in (c : counter) (k : code) :
  (forall p, In p c -> 0 < snd p) -> In k (ckeys c) -> 0 < cget c k.
Proof.
  induction c as [|[x w] c IH]; simpl; intros Hp Hk; [contradiction|].
  destruct (String.eqb k x) eqn:E;
    [specialize (Hp (x, w) (or_introl eq_refl)); simpl in Hp; lia|].
  apply String.eqb_neq in E. destruct Hk as [Hk|Hk]; [congruence|].
  apply IH; [intros p Hin; apply Hp; right; exact Hin | exact Hk].
Qed.

(** [c[x] += 1] *)
Lemma cincr_spec (c : counter) (x : code) :
  NoDup (ckeys c) -> (forall p, In p c -> 0 < snd p) ->
  NoDup (ckeys (cincr c x)) /\ (forall p, In p (cincr c x) -> 0 < snd p) /\
  (forall k, cget (cincr c x) k = cget c k + delta k x) /\
  csum (cincr c x) = csum c + 1.
Proof.
  intros Hnd Hp. unfold cincr. split; [apply nodup_cset, Hnd|]. split.
  - intros p Hin. destruct (in_cset _ _ _ _ Hin) as [->|Hin'];
      [simpl; pose proof (cget_nonneg c x Hp); lia | apply Hp, Hin'].
  - split; [intros k; rewrite cget_cset; unfold delta;
            destruct (String.eqb k x) eqn:E; [apply String.eqb_eq in E; subst|]; lia|].
    rewrite csum_cset. lia.
Qed.

(** [c[x] -= 1; if c[x] == 0: del c[x]] for a held [x] *)
Lemma cdec_del_spec (c : counter) (x : code) :
  NoDup (ckeys c) -> (forall p, In p c -> 0 < snd p) -> 0 < cget c x ->
  let c2 := cdecr c x in
  let c3 := if cget c2 x =? 0 then cdel c2 x else c2 in
  NoDup (ckeys c3) /\ (forall p, In p c3 -> 0 < snd p) /\
  (forall k, cget c3 k = cget c k - delta k x) /\ csum c3 = csum c - 1.
Proof.
  intros Hnd Hp Hx c2 c3.
  assert (Hnd2 : NoDup (ckeys c2)) by apply nodup_cset, Hnd.
  assert (Hg2 : forall k, cget c2 k = cget c k - delta k x).
  { intros k. unfold c2, cdecr. rewrite cget_cset. unfold delta.
    destruct (String.eqb k x) eqn:E; [apply String.eqb_eq in E; subst|]; lia. }
  assert (Hs2 : csum c2 = csum c - 1) by (unfold c2, cdecr; rewrite csum_cset; lia).
  unfold c3. destruct (cget c2 x =? 0) eqn:Hz.
  - apply Z.eqb_eq in Hz.
    assert (Hx1 : cget c x = 1) by (rewrite Hg2 in Hz; unfold delta in Hz;
                                    rewrite String.eqb_refl in Hz; lia).
    split; [apply nodup_cdel, Hnd2|]. split.
    + intros p Hin. pose proof (in_cdel_key _ _ _ Hnd2 Hin) as Hk.
      apply in_cdel in Hin. unfold c2, cdecr in Hin.
      destruct (in_cset _ _ _ _ Hin) as [->|Hin']; [simpl in Hk; congruence|].
      apply Hp, Hin'.
    + split; [intros k; rewrite cget_cdel by exact Hnd2; rewrite Hg2; unfold delta;
              destruct (String.eqb k x) eqn:E; [apply String.eqb_eq in E; subst|]; lia|].
      rewrite csum_cdel, Hs2, Hz. lia.
  - apply Z.eqb_neq in Hz. split; [exact Hnd2|]. split.
    + intros p Hin. unfold c2, cdecr in Hin.
      destruct (in_cset _ _ _ _ Hin) as [->|Hin']; [|apply Hp, Hin'].
      simpl. rewrite Hg2 in Hz. unfold delta in Hz. rewrite String.eqb_refl in Hz. lia.
    + split; [exact Hg2 | exact Hs2].
Qed.

Lemma cget_notin (c : counter) (k : code) : ~ In k (ckeys c) -> cget c k = 0.
Proof.
  induction c as [|[x w] c IH]; simpl; intros Hn; [reflexivity|].
  destruct (String.eqb k x) eqn:E; [apply String.eqb_eq in E; subst; tauto|].
  apply IH. tauto.
Qed.

Lemma count_cons (x : code) (l : list code) (k : code) :
  Z.of_nat (count_occ string_dec (x :: l) k) =
  delta k x + Z.of_nat (count_occ string_dec l k).
Proof.
  simpl. unfold delta. destruct (string_dec x k) as [<-|E].
  - rewrite String.eqb_refl. lia.
  - destruct (String.eqb k x) eqn:E'; [apply String.eqb_eq in E'; congruence | lia].
Qed.

Lemma count_app (l1 l2 : list code) (k : code) :
  Z.of_nat (count_occ string_dec (l1 ++ l2) k) =
  Z.of_nat (count_occ string_dec l1 k) + Z.of_nat (count_occ string_dec l2 k).
Proof. rewrite count_occ_app. apply Nat2Z.inj_add. Qed.

Lemma wf_in (c : counter) (l : list code) (k : code) :
  wf c l -> In k (ckeys c) <-> In k l.
Proof.
  intros (Hnd & Hg & Hp & _). split; intros Hk.
  - apply (count_occ_In string_dec). pose proof (cget_pos_in c k Hp Hk).
    rewrite Hg in H. lia.
  - destruct (in_dec string_dec k (ckeys c)) as [Hi|Hi]; [exact Hi|].
    apply (count_occ_In string_dec) in Hk. specialize (Hg k). rewrite cget_notin in Hg by exact Hi. lia.
Qed.

Lemma wf_nil : wf [] [].
Proof.
  split; [constructor|]. split; [intros; reflexivity|]. split; [intros p []|].
  reflexivity.
Qed.

Lemma wf_cincr_app (c : counter) (l : list code) (x : code) :
  wf c l -> wf (cincr c x) (l ++ [x]).
Proof.
  intros (Hnd & Hg & Hp & Hs).
  destruct (cincr_spec c x Hnd Hp) as (Hnd' & Hp' & Hg' & Hs').
  split; [exact Hnd'|]. split; [|split; [exact Hp'|]].
  - intros k. rewrite Hg', count_app, count_cons, Hg. simpl. ring.
  - rewrite Hs', Hs, length_app. simpl. lia.
Qed.

Lemma wf_pop (c : counter) (x : code) (l : list code) :
  wf c (x :: l) ->
  wf (if cget (cdecr c x) x =? 0 then cdel (cdecr c x) x else cdecr c x) l.
Proof.
  intros (Hnd & Hg & Hp & Hs).
  assert (Hx : 0 < cget c x) by (rewrite Hg, count_cons; unfold delta;
                                 rewrite String.eqb_refl; lia).
  destruct (cdec_del_spec c x Hnd Hp Hx) as (Hnd' & Hp' & Hg' & Hs').
  split; [exact Hnd'|]. split; [|split; [exact Hp'|]].
  - intros k. rewrite Hg', Hg, count_cons. lia.
  - rewrite Hs', Hs. cbn [length]. lia.
Qed.

Lemma insert_spec (L : Z) (c : counter) (l : list code) (up : code) :
  wf c l ->
  wf (fst (insert L (c, l) up)) (snd (insert L (c, l) up)) /\
  Z.of_nat (length (snd (insert L (c, l) up))) =
    (if L <? Z.of_nat (length l) + 1 then Z.of_nat (length l)
     else Z.of_nat (length l) + 1).
Proof.
  intros Hwf. pose proof (wf_cincr_app c l up Hwf) as Hw1.
  unfold insert; simpl.
  assert (Hlen : Z.of_nat (length (l ++ [up])) = Z.of_nat (length l) + 1)
    by (rewrite length_app; simpl; lia).
  rewrite Hlen. destruct (L <? Z.of_nat (length l) + 1).
  - destruct (l ++ [up]) as [|first rest] eqn:E; [destruct l; discriminate|].
    simpl. split; [apply wf_pop; exact Hw1|].
    assert (length (l ++ [up]) = S (length rest)) by (rewrite E; reflexivity).
    rewrite length_app in H. simpl in H. lia.
  - simpl. split; [exact Hw1|]. lia.
Qed.

Lemma relabel_first_split (l : list code) (old new : code) :
  In old l -> exists pre post,
    l = pre ++ old :: post /\ ~ In old pre /\
    relabel_first l old new = pre ++ new :: post.
Proof.
  induction l as [|x l IH]; simpl; [tauto|]. intros Hin.
  destruct (String.eqb x old) eqn:E.
  - apply String.eqb_eq in E; subst x. exists [], l. simpl. auto.
  - apply String.eqb_neq in E. destruct Hin as [Hx|Hin]; [congruence|].
    destruct (IH Hin) as (pre & post & -> & Hn & ->).
    exists (x :: pre), post. simpl. split; [reflexivity|]. split; [|reflexivity].
    intros [Hx|Hx]; [congruence | tauto].
Qed.

Lemma mutate_held_spec (c : counter) (l : list code) (old new : code) :
  wf c l -> In old (ckeys c) ->
  wf (fst (mutate_held c l old new)) (snd (mutate_held c l old new)) /\
  (forall k, cget (fst (mutate_held c l old new)) k = cget c k + delta k new - delta k old) /\
  csum (fst (mutate_held c l old new)) = csum c /\
  exists pre post, l = pre ++ old :: post /\ ~ In old pre /\
    snd (mutate_held c l old new) = pre ++ new :: post.
Proof.
  intros Hwf Hk. pose proof Hwf as (Hnd & Hg & Hp & Hs).
  destruct (cincr_spec c new Hnd Hp) as (Hnd1 & Hp1 & Hg1 & Hs1).
  assert (Hpos : 0 < cget (cincr c new) old).
  { rewrite Hg1. pose proof (cget_pos_in c old Hp Hk). unfold delta.
    destruct (String.eqb old new); lia. }
  destruct (cdec_del_spec _ old Hnd1 Hp1 Hpos) as (Hnd3 & Hp3 & Hg3 & Hs3).
  assert (Hin : In old l) by (apply (wf_in c l old Hwf), Hk).
  destruct (relabel_first_split l old new Hin) as (pre & post & Hl & Hn & Hr).
  unfold mutate_held; simpl.
  assert (Hg' : forall k, cget (if cget (cdecr (cincr c new) old) old =? 0
                                then cdel (cdecr (cincr c new) old) old
                                else cdecr (cincr c new) old) k =
                          cget c k + delta k new - delta k old)
    by (intros k; rewrite Hg3, Hg1; lia).
  split; [|split; [exact Hg'|split; [rewrite Hs3, Hs1; lia|]]].
  - split; [exact Hnd3|]. split; [|split; [exact Hp3|]].
    + intros k. rewrite Hg', Hg, Hr, Hl, !count_app, !count_cons. lia.
    + rewrite Hs3, Hs1, Hs, Hr, Hl, !length_app. simpl. lia.
  - exists pre, post. auto.
Qed.

Lemma ins_desc_perm (x : code * Z) (l : list (code * Z)) :
  Permutation (ins_desc x l) (x :: l).
Proof.
  induction l as [|y l IH]; simpl; [reflexivity|].
  destruct (snd x <? snd y); [|reflexivity].
  rewrite IH. apply perm_swap.
Qed.

Lemma most_common_perm (c : counter) : Permutation (most_common c) c.
Proof.
  unfold most_common. induction c as [|x c IH]; simpl; [reflexivity|].
  rewrite ins_desc_perm, IH. reflexivity.
Qed.

Lemma ins_desc_top (x : code * Z) (l : list (code * Z)) :
  top_ok l -> top_ok (ins_desc x l).
Proof.
  destruct l as [|y l]; simpl; [intros _ p [<-|[]]; lia|].
  intros Hy. destruct (snd x <? snd y) eqn:E; simpl.
  - apply Z.ltb_lt in E. intros p [<-|Hp]; [lia|].
    apply (Permutation_in _ (ins_desc_perm x l)) in Hp.
    destruct Hp as [<-|Hp]; [lia | apply Hy; right; exact Hp].
  - apply Z.ltb_ge in E. intros p [<-|[<-|Hp]]; [lia|lia|].
    specialize (Hy p (or_intror Hp)). lia.
Qed.

Lemma most_common_top (c : counter) : top_ok (most_common c).
Proof.
  unfold most_common. induction c as [|x c IH]; simpl; [exact I|].
  apply ins_desc_top, IH.
Qed.

Lemma in_cget (c : counter) (k : code) (v : Z) :
  NoDup (ckeys c) -> In (k, v) c -> cget c k = v.
Proof.
  induction c as [|[x w] c IH]; simpl; [tauto|]. intros Hnd Hin.
  inversion Hnd as [|? ? Hx Hnd']; subst.
  destruct Hin as [E|Hin].
  - inversion E; subst. rewrite String.eqb_refl. reflexivity.
  - destruct (String.eqb k x) eqn:E.
    + apply String.eqb_eq in E; subst. exfalso; apply Hx.
      apply in_map_iff. exists (x, v). auto.
    + apply IH; assumption.
Qed.

Lemma cget_in (c : counter) (k : code) : In k (ckeys c) -> In (k, cget c k) c.
Proof.
  induction c as [|[x w] c IH]; simpl; [tauto|]. intros Hk.
  destruct (String.eqb k x) eqn:E.
  - apply String.eqb_eq in E; subst. left; reflexivity.
  - apply String.eqb_neq in E. right. apply IH. destruct Hk; [congruence|assumption].
Qed.

Lemma nodup_map_filter {A B} (f : A -> B) (g : A -> bool) (l : list A) :
  NoDup (map f l) -> NoDup (map f (filter g l)).
Proof.
  induction l as [|x l IH]; simpl; [auto|]. intros Hnd.
  inversion Hnd as [|? ? Hx Hnd']; subst.
  destruct (g x); simpl; [|apply IH, Hnd'].
  constructor; [|apply IH, Hnd'].
  intros Hin; apply Hx. apply in_map_iff in Hin. destruct Hin as (y & Hy & Hin).
  apply in_map_iff. exists y. split; [exact Hy|]. apply filter_In in Hin. tauto.
Qed.

(** [largest_vals] lists, without repetition, exactly the codes of
    largest count. *)
Lemma largest_vals_spec (c : counter) :
  c <> [] -> NoDup (ckeys c) ->
  NoDup (largest_vals c) /\ (forall k, In k (largest_vals c) <-> is_max c k) /\
  largest_vals c <> [].
Proof.
  intros Hne Hnd. pose proof (most_common_perm c) as Hperm.
  pose proof (most_common_top c) as Htop. unfold largest_vals.
  destruct (most_common c) as [|h rest] eqn:Emc.
  { apply Permutation_nil in Hperm. congruence. }
  simpl in Htop. destruct h as [x0 w0]. change (snd (x0, w0)) with w0 in Htop.
  assert (Hh : In (x0, w0) c) by (apply (Permutation_in _ Hperm); left; reflexivity).
  split; [|split].
  - apply nodup_map_filter. unfold ckeys in Hnd.
    apply (Permutation_NoDup (Permutation_map fst (Permutation_sym Hperm))), Hnd.
  - intros k. rewrite in_map_iff. split.
    + intros ([k0 v] & <- & Hin). apply filter_In in Hin. destruct Hin as [Hin Hv].
      apply Z.eqb_eq in Hv. simpl in Hv. subst v.
      assert (Hc : In (k0, w0) c) by (apply (Permutation_in _ Hperm), Hin).
      split; [apply in_map_iff; exists (k0, w0); auto|].
      simpl. rewrite (in_cget c k0 w0 Hnd Hc).
      intros k' Hk'. apply (cget_in c k') in Hk'.
      apply (Permutation_in _ (Permutation_sym Hperm)) in Hk'.
      apply Htop in Hk'. exact Hk'.
    + intros [Hk Hmax]. exists (k, cget c k). split; [reflexivity|].
      apply filter_In. split.
      * apply (Permutation_in _ (Permutation_sym Hperm)), cget_in, Hk.
      * apply Z.eqb_eq. simpl.
        assert (H1 : cget c k <= w0).
        { apply (Htop (k, cget c k)),
            (Permutation_in _ (Permutation_sym Hperm)), cget_in, Hk. }
        assert (H2 : cget c x0 <= cget c k).
        { apply Hmax. apply in_map_iff. exists (x0, w0). auto. }
        rewrite (in_cget c x0 w0 Hnd Hh) in H2. lia.
  - simpl. rewrite Z.eqb_refl. discriminate.
Qed.

Lemma length_filter_map {A B} (f : B -> bool) (g : A -> B) (l : list A) :
  length (filter f (map g l)) = length (filter (fun x => f (g x)) l).
Proof. induction l as [|x l IH]; simpl; [reflexivity|]. destruct (f (g x)); simpl; auto. Qed.

Lemma count_idx (l : list code) (k : code) :
  length (filter (fun r => String.eqb (nth r l EmptyString) k) (seq 0 (length l)))
  = count_occ string_dec l k.
Proof.
  induction l as [|x l IH]; [reflexivity|].
  cbn [length]. rewrite <- cons_seq, <- seq_shift. cbn [filter nth].
  simpl. destruct (String.eqb x k) eqn:E; simpl.
  - apply String.eqb_eq in E; subst. destruct (string_dec k k); [|congruence].
    f_equal. rewrite length_filter_map. exact IH.
  - apply String.eqb_neq in E. destruct (string_dec x k); [congruence|].
    rewrite length_filter_map. exact IH.
Qed.

End MemFacts.

Module RunFacts.

Import GraphFacts MemFacts.

Lemma get_mc_max (c : counter) (pick : nat -> nat) :
  c <> [] -> NoDup (ckeys c) -> (forall b, 0 < b -> pick b < b) ->
  is_max c (get_mc c pick).
Proof.
  intros Hne Hnd Hp. destruct (largest_vals_spec c Hne Hnd) as (_ & Hiff & Hlv).
  apply Hiff. unfold get_mc. apply nth_In. apply Hp.
  destruct (largest_vals c); [congruence | simpl; lia].
Qed.

Lemma select_rumor_in (cfg : config) (dr : node_draws) (c : counter) :
  c <> [] -> NoDup (ckeys c) -> valid_draws dr -> In (select_rumor cfg dr c) (ckeys c).
Proof.
  intros Hne Hnd [Hpick Hw]. unfold select_rumor. destruct (mcr cfg).
  - apply (get_mc_max c _ Hne Hnd Hpick).
  - apply nth_In. unfold ckeys. rewrite length_map.
    match goal with |- (d_weighted dr ?ps < _) => assert (Hps : ps <> []) end.
    { destruct c; [congruence | discriminate]. }
    specialize (Hw _ Hps). rewrite !length_map in Hw. exact Hw.
Qed.

Lemma node_local_special (cfg : config) (dr : node_draws) (c : counter) (l : list code) (h : R) :
  node_local cfg true dr c l h =
  (c, l, h, if (csum c =? 0)%Z then None else Some (get_mc c (d_pick dr))).
Proof. unfold node_local. destruct (csum c =? 0)%Z; reflexivity. Qed.

Lemma node_local_wf (cfg : config) (sp : bool) (dr : node_draws) (c : counter)
  (l : list code) (h : R) :
  wf c l -> valid_draws dr ->
  wf (fst (fst (fst (node_local cfg sp dr c l h))))
     (snd (fst (fst (node_local cfg sp dr c l h)))) /\
  length (snd (fst (fst (node_local cfg sp dr c l h)))) = length l.
Proof.
  intros Hwf Hd. unfold node_local. cbv zeta.
  destruct (csum c =? 0)%Z eqn:Hz; [simpl; auto|].
  destruct sp; [simpl; auto|].
  assert (Hne : c <> []) by (intros ->; discriminate).
  pose proof (select_rumor_in cfg dr c Hne (proj1 Hwf) Hd) as Hr.
  destruct (d_mutate dr _); simpl; [|auto].
  destruct (mutate_held_spec c l _ (flip (select_rumor cfg dr c) (d_bitflip dr)) Hwf Hr)
    as (Hw' & _ & _ & pre & post & Hl & _ & Hl').
  split; [exact Hw'|]. unfold mutate_held in Hl'; simpl in Hl'.
  rewrite Hl', Hl, !length_app. reflexivity.
Qed.

Lemma after_local_0 (cfg : config) (liars truths : list nat) (dr : nat -> node_draws)
  (st : state) : after_local cfg liars truths dr st 0 = st.
Proof.
  destruct st as [md ml hs]. unfold after_local. simpl.
  f_equal; apply functional_extensionality; intros i; destruct i; reflexivity.
Qed.

Lemma node_iter_local (cfg : config) (liars truths : list nat) (dr : nat -> node_draws)
  (st : state) (k : nat) (u : nat -> list code) :
  node_iter cfg liars truths dr (after_local cfg liars truths dr st k, u) k =
  (after_local cfg liars truths dr st (S k),
   match snd (local_result cfg liars truths dr st k) with
   | None => u
   | Some r => enqueue cfg liars truths (dr k) k r u
   end).
Proof.
  unfold node_iter. cbn [fst snd].
  assert (E : node_local cfg (is_special liars truths k) (dr k)
                (mem_dict (after_local cfg liars truths dr st k) k)
                (mem_list (after_local cfg liars truths dr st k) k)
                (Hs (after_local cfg liars truths dr st k) k)
              = local_result cfg liars truths dr st k).
  { unfold after_local. simpl. rewrite Nat.ltb_irrefl. reflexivity. }
  rewrite E. destruct (local_result cfg liars truths dr st k) as [[[c' l'] h'] ob] eqn:Er.
  assert (Est : mkState (fupd (mem_dict (after_local cfg liars truths dr st k)) k c')
                  (fupd (mem_list (after_local cfg liars truths dr st k)) k l')
                  (fupd (Hs (after_local cfg liars truths dr st k)) k h')
                = after_local cfg liars truths dr st (S k)).
  { unfold after_local, fupd. simpl.
    f_equal; apply functional_extensionality; intros i;
      (destruct (Nat.eqb_spec i k) as [->|Hne];
       [rewrite Er; destruct (Nat.ltb_spec k (S k)); [reflexivity | lia]
       | destruct (Nat.ltb_spec i k), (Nat.ltb_spec i (S k)); try reflexivity; lia]). }
  cbv beta iota zeta. rewrite Est. destruct ob; reflexivity.
Qed.

Lemma phase1 (cfg : config) (liars truths : list nat) (dr : nat -> node_draws)
  (st : state) (k : nat) :
  fold_left (node_iter cfg liars truths dr) (seq 0 k) (st, fun _ => []) =
  (after_local cfg liars truths dr st k, queue_local cfg liars truths dr st k).
Proof.
  induction k as [|k IH].
  - simpl. rewrite after_local_0. reflexivity.
  - rewrite seq_S, fold_left_app, IH. simpl. rewrite node_iter_local.
    unfold queue_local. rewrite seq_S, fold_left_app. reflexivity.
Qed.

(** The loop of lines 229-269 computes the synchronous round. *)
Lemma round_eq_sync (cfg : config) (liars truths : list nat) (dr : nat -> node_draws)
  (st : state) : round cfg liars truths dr st = round_sync cfg liars truths dr st.
Proof. unfold round, round_sync. rewrite phase1. reflexivity. Qed.

Lemma apply_fold (cfg : config) (st : state) (upd : nat -> list code) (k : nat) :
  let s := fold_left
    (fun s j =>
       let cl := fold_left (insert (L cfg)) (upd j) (mem_dict s j, mem_list s j) in
       mkState (fupd (mem_dict s) j (fst cl)) (fupd (mem_list s) j (snd cl)) (Hs s))
    (seq 0 k) st in
  forall j,
    let cl := fold_left (insert (L cfg)) (upd j) (mem_dict st j, mem_list st j) in
    mem_dict s j = (if j <? k then fst cl else mem_dict st j) /\
    mem_list s j = (if j <? k then snd cl else mem_list st j) /\
    Hs s j = Hs st j.
Proof.
  induction k as [|k IH]; intros s j cl; [simpl; auto|].
  unfold s; clear s. rewrite seq_S, fold_left_app.
  destruct (IH k) as (Hk1 & Hk2 & _). rewrite Nat.ltb_irrefl in Hk1, Hk2.
  destruct (IH j) as (Hj1 & Hj2 & Hj3).
  set (s0 := fold_left _ (seq 0 k) st) in *.
  cbn [fold_left]. cbv beta zeta. cbn [mem_dict mem_list Hs]. unfold fupd.
  change (0 + k) with k.
  rewrite Hk1, Hk2, Hj1, Hj2, Hj3.
  destruct (Nat.eqb_spec j k) as [->|Hne].
  - destruct (Nat.ltb_spec k (S k)); [|lia]. auto.
  - destruct (Nat.ltb_spec j k), (Nat.ltb_spec j (S k)); try lia; auto.
Qed.

Lemma apply_updates_at (cfg : config) (st : state) (upd : nat -> list code) (j : nat) :
  let cl := fold_left (insert (L cfg)) (upd j) (mem_dict st j, mem_list st j) in
  mem_dict (apply_updates cfg st upd) j = (if j <? n_nodes cfg then fst cl else mem_dict st j) /\
  mem_list (apply_updates cfg st upd) j = (if j <? n_nodes cfg then snd cl else mem_list st j) /\
  Hs (apply_updates cfg st upd) j = Hs st j.
Proof. apply apply_fold. Qed.

Lemma enqueue_keep (cfg : config) (liars truths : list nat) (d : node_draws) (i : nat)
  (r : code) (u : nat -> list code) (j : nat) :
  (is_special liars truths j = true \/ n_nodes cfg <= j) ->
  enqueue cfg liars truths d i r u j = u j.
Proof.
  intros Hj. unfold enqueue.
  assert (Hf : forall x, In x (flatnonzero (edges cfg) (n_nodes cfg) i) -> x < n_nodes cfg)
    by (intros x Hx; apply flatnonzero_spec in Hx; tauto).
  revert u Hf. induction (flatnonzero (edges cfg) (n_nodes cfg) i) as [|x xs IH];
    intros u Hf; simpl; [reflexivity|].
  rewrite IH by (intros y Hy; apply Hf; right; exact Hy).
  destruct (is_special liars truths x) eqn:Hx; [reflexivity|].
  destruct (d_accept d x (eta cfg x i)); [|reflexivity].
  unfold fupd. destruct (Nat.eqb_spec j x) as [->|]; [|reflexivity].
  exfalso. destruct Hj as [Hj|Hj]; [congruence|]. specialize (Hf x (or_introl eq_refl)). lia.
Qed.

Lemma queue_local_keep (cfg : config) (liars truths : list nat) (dr : nat -> node_draws)
  (st : state) (k j : nat) :
  (is_special liars truths j = true \/ n_nodes cfg <= j) ->
  queue_local cfg liars truths dr st k j = [].
Proof.
  intros Hj. unfold queue_local.
  assert (Hgen : forall xs (u : nat -> list code), u j = [] ->
    fold_left (fun u i => match snd (local_result cfg liars truths dr st i) with
                          | None => u
                          | Some r => enqueue cfg liars truths (dr i) i r u
                          end) xs u j = []).
  { induction xs as [|x xs IH]; intros u Hu; simpl; [exact Hu|]. apply IH.
    destruct (snd (local_result cfg liars truths dr st x)); [|exact Hu].
    rewrite enqueue_keep by exact Hj. exact Hu. }
  apply Hgen. reflexivity.
Qed.

Lemma special_round (cfg : config) (liars truths : list nat) (d : nat -> node_draws)
  (st : state) (i : nat) :
  is_special liars truths i = true ->
  mem_dict (fst (round cfg liars truths d st)) i = mem_dict st i /\
  mem_list (fst (round cfg liars truths d st)) i = mem_list st i /\
  Hs (fst (round cfg liars truths d st)) i = Hs st i.
Proof.
  intros Hsp. rewrite round_eq_sync. unfold round_sync. cbn [fst].
  pose proof (apply_updates_at cfg (after_local cfg liars truths d st (n_nodes cfg))
                (queue_local cfg liars truths d st (n_nodes cfg)) i) as HA.
  cbv zeta in HA. destruct HA as (H1 & H2 & H3). rewrite H1, H2, H3.
  rewrite queue_local_keep by (left; exact Hsp). cbn [fold_left fst snd].
  unfold after_local, local_result. cbn [mem_dict mem_list Hs].
  rewrite Hsp, node_local_special.
  destruct (i <? n_nodes cfg); auto.
Qed.

Lemma special_states (cfg : config) (liars truths : list nat) (dr : nat -> nat -> node_draws)
  (itnum k : nat) (st : state) (i : nat) :
  is_special liars truths i = true ->
  mem_dict (states cfg liars truths dr itnum k st) i = mem_dict st i /\
  mem_list (states cfg liars truths dr itnum k st) i = mem_list st i /\
  Hs (states cfg liars truths dr itnum k st) i = Hs st i.
Proof.
  intros Hsp. revert itnum st. induction k as [|k IH]; intros itnum st; cbn [states]; [auto|].
  destruct (IH (S itnum) (fst (round cfg liars truths (dr itnum) st))) as (H1 & H2 & H3).
  destruct (special_round cfg liars truths (dr itnum) st i Hsp) as (R1 & R2 & R3).
  rewrite H1, H2, H3, R1, R2, R3. auto.
Qed.

Lemma seed_fold_out (xs : list nat) (k : code) (st : state) (i : nat) :
  ~ In i xs ->
  mem_dict (fold_left (fun s x => seed_mem s x k) xs st) i = mem_dict st i /\
  mem_list (fold_left (fun s x => seed_mem s x k) xs st) i = mem_list st i /\
  Hs (fold_left (fun s x => seed_mem s x k) xs st) i = Hs st i.
Proof.
  revert st. induction xs as [|x xs IH]; intros st Hi; simpl; [auto|].
  assert (Hi' : ~ In i xs) by (intros Hin; apply Hi; right; exact Hin).
  destruct (IH (seed_mem st x k) Hi') as (H1 & H2 & H3).
  rewrite H1, H2, H3. unfold seed_mem, fupd. simpl.
  destruct (Nat.eqb_spec i x); [subst; exfalso; apply Hi; left; reflexivity | auto].
Qed.

Lemma seed_fold_in (xs : list nat) (k : code) (st : state) (i : nat) :
  NoDup xs -> In i xs ->
  mem_dict (fold_left (fun s x => seed_mem s x k) xs st) i = cincr (mem_dict st i) k /\
  mem_list (fold_left (fun s x => seed_mem s x k) xs st) i = mem_list st i ++ [k] /\
  Hs (fold_left (fun s x => seed_mem s x k) xs st) i = Hs st i.
Proof.
  revert st. induction xs as [|x xs IH]; intros st Hnd Hi; simpl; [contradiction|].
  inversion Hnd as [|? ? Hx Hnd']; subst.
  destruct (Nat.eq_dec x i) as [<-|Hne].
  - destruct (seed_fold_out xs k (seed_mem st x k) x Hx) as (H1 & H2 & H3).
    rewrite H1, H2, H3. unfold seed_mem, fupd. simpl. rewrite Nat.eqb_refl. auto.
  - assert (Hi' : In i xs) by (destruct Hi; [congruence | assumption]).
    destruct (IH (seed_mem st x k) Hnd' Hi') as (H1 & H2 & H3).
    rewrite H1, H2, H3. unfold seed_mem, fupd. simpl.
    destruct (Nat.eqb_spec i x); [congruence | auto].
Qed.

Lemma seed_fold_wf (xs : list nat) (k : code) (st : state) :
  (forall i, wf (mem_dict st i) (mem_list st i)) ->
  forall i,
    wf (mem_dict (fold_left (fun s x => seed_mem s x k) xs st) i)
       (mem_list (fold_left (fun s x => seed_mem s x k) xs st) i) /\
    length (mem_list (fold_left (fun s x => seed_mem s x k) xs st) i) =
      length (mem_list st i) + count_occ Nat.eq_dec xs i.
Proof.
  revert st. induction xs as [|x xs IH]; intros st Hw i; simpl; [split; [apply Hw | lia]|].
  assert (Hw' : forall j, wf (mem_dict (seed_mem st x k) j) (mem_list (seed_mem st x k) j)).
  { intros j. unfold seed_mem, fupd. simpl.
    destruct (j =? x); [apply wf_cincr_app|]; apply Hw. }
  destruct (IH (seed_mem st x k) Hw' i) as [H1 H2]. split; [exact H1|].
  rewrite H2. unfold seed_mem, fupd. simpl.
  destruct (Nat.eqb_spec i x) as [->|Hne].
  - destruct (Nat.eq_dec x x); [|congruence]. rewrite length_app. simpl. lia.
  - destruct (Nat.eq_dec x i); [congruence | reflexivity].
Qed.

Lemma init_state_inv (liars truths : list nat) (init_person : nat) (Lc : Z) :
  (1 <= Lc)%Z -> NoDup (init_person :: liars ++ truths) ->
  mem_inv Lc (init_state liars truths init_person) (seeded liars truths init_person).
Proof.
  intros HL Hnd i.
  set (st0 := mkState (fun _ => []) (fun _ => []) (fun _ => 0%R)).
  assert (Hw0 : forall j, wf (mem_dict st0 j) (mem_list st0 j)) by (intros; apply wf_nil).
  pose proof (seed_fold_wf liars "11111"%string st0 Hw0) as W1.
  pose proof (seed_fold_wf truths "00000"%string _ (fun j => proj1 (W1 j))) as W2.
  pose proof (seed_fold_wf [init_person] "00000"%string _ (fun j => proj1 (W2 j)) i) as W3.
  unfold init_state. fold st0. simpl fold_left in W3.
  destruct W3 as [Hw3 Hl3]. split; [exact Hw3|].
  rewrite Hl3, (proj2 (W2 i)), (proj2 (W1 i)).
  assert (Hnd' : NoDup (liars ++ truths ++ [init_person])).
  { rewrite app_assoc. apply (Permutation_NoDup (Permutation_cons_append _ _)), Hnd. }
  pose proof (proj1 (NoDup_count_occ Nat.eq_dec _) Hnd' i) as Hc.
  unfold seeded. rewrite !count_occ_app in *. simpl (length (mem_list st0 i)). lia.
Qed.

Lemma insert_fold (Lc : Z) (us : list code) (c : counter) (l : list code) (t : nat) :
  (1 <= Lc)%Z -> wf c l -> Z.of_nat (length l) = Z.min (Z.of_nat t) Lc ->
  wf (fst (fold_left (insert Lc) us (c, l))) (snd (fold_left (insert Lc) us (c, l))) /\
  Z.of_nat (length (snd (fold_left (insert Lc) us (c, l)))) =
    Z.min (Z.of_nat (t + length us)) Lc.
Proof.
  intros HL. revert c l t. induction us as [|u us IH]; intros c l t Hw Hl; simpl.
  - rewrite Nat.add_0_r. auto.
  - destruct (insert_spec Lc c l u Hw) as [Hw' Hl'].
    destruct (insert Lc (c, l) u) as [c' l'] eqn:E. simpl in Hw', Hl'.
    replace (t + S (length us)) with (S t + length us) by lia.
    apply IH; [exact Hw'|]. rewrite Hl'.
    destruct (Z.ltb_spec Lc (Z.of_nat (length l) + 1)); lia.
Qed.

Lemma round_inv (cfg : config) (liars truths : list nat) (d : nat -> node_draws)
  (st : state) (t : nat -> nat) :
  (1 <= L cfg)%Z -> (forall i, valid_draws (d i)) -> mem_inv (L cfg) st t ->
  mem_inv (L cfg) (fst (round cfg liars truths d st))
    (fun i => t i + length (snd (round cfg liars truths d st) i)).
Proof.
  intros HL Hd Hinv i. rewrite round_eq_sync. unfold round_sync. cbn [fst snd].
  pose proof (apply_updates_at cfg (after_local cfg liars truths d st (n_nodes cfg))
                (queue_local cfg liars truths d st (n_nodes cfg)) i) as HA.
  cbv zeta in HA. destruct HA as (H1 & H2 & _). rewrite H1, H2.
  destruct (Hinv i) as [Hw Hl].
  destruct (Nat.ltb_spec i (n_nodes cfg)) as [Hi|Hi].
  - assert (Ea : mem_dict (after_local cfg liars truths d st (n_nodes cfg)) i =
                 fst (fst (fst (local_result cfg liars truths d st i))))
      by (unfold after_local; cbn [mem_dict];
          destruct (Nat.ltb_spec i (n_nodes cfg)); [reflexivity | lia]).
    assert (Eb : mem_list (after_local cfg liars truths d st (n_nodes cfg)) i =
                 snd (fst (fst (local_result cfg liars truths d st i))))
      by (unfold after_local; cbn [mem_list];
          destruct (Nat.ltb_spec i (n_nodes cfg)); [reflexivity | lia]).
    rewrite Ea, Eb. unfold local_result.
    destruct (node_local_wf cfg (is_special liars truths i) (d i) (mem_dict st i)
                (mem_list st i) (Hs st i) Hw (Hd i)) as [Hw' Hl'].
    apply insert_fold; [exact HL | exact Hw' | rewrite Hl'; exact Hl].
  - rewrite queue_local_keep by (right; exact Hi). cbn [length fold_left fst snd].
    unfold after_local. cbn [mem_dict mem_list].
    destruct (Nat.ltb_spec i (n_nodes cfg)); [lia|]. rewrite Nat.add_0_r. auto.
Qed.

Lemma states_inv (cfg : config) (liars truths : list nat) (dr : nat -> nat -> node_draws)
  (itnum k : nat) (st : state) (t : nat -> nat) :
  (1 <= L cfg)%Z -> (forall it i, valid_draws (dr it i)) -> mem_inv (L cfg) st t ->
  mem_inv (L cfg) (states cfg liars truths dr itnum k st)
    (fun i => t i + inserted cfg liars truths dr itnum k st i).
Proof.
  intros HL Hd. revert itnum st t. induction k as [|k IH]; intros itnum st t Hinv;
    cbn [states inserted].
  - intros i. rewrite Nat.add_0_r. apply Hinv.
  - intros i. pose proof (round_inv cfg liars truths (dr itnum) st t HL (Hd itnum) Hinv) as Hr.
    destruct (IH (S itnum) _ _ Hr i) as [Hw Hl]. split; [exact Hw|].
    rewrite Hl, Nat.add_assoc. reflexivity.
Qed.

Lemma round_stats_some (cfg : config) (st : state) (sd : nat -> nat -> nat) :
  (0 < n_nodes cfg)%nat -> exists e, round_stats cfg st sd = Some e.
Proof.
  intros Hn. unfold round_stats. destruct (n_nodes cfg) as [|n]; [lia|].
  cbn [seq map]. eexists. reflexivity.
Qed.

Lemma run_loop_some (cfg : config) (liars truths : list nat) (dr : nat -> nat -> node_draws)
  (sd : nat -> nat -> nat -> nat) (itnum k : nat) (st : state) (acc : stats) :
  (0 < n_nodes cfg)%nat ->
  exists s, run_loop cfg liars truths dr sd itnum k st acc =
              Some (states cfg liars truths dr itnum k st, s) /\
            length (avgH s) = length (avgH acc) + k.
Proof.
  intros Hn. revert itnum st acc. induction k as [|k IH]; intros itnum st acc;
    cbn [run_loop states].
  - exists acc. split; [reflexivity | lia].
  - destruct (round_stats_some cfg (fst (round cfg liars truths (dr itnum) st)) (sd itnum) Hn)
      as (e & He).
    rewrite He. destruct (IH (S itnum) (fst (round cfg liars truths (dr itnum) st))
                           (push_stats acc e)) as (s & Hs' & Hl).
    exists s. split; [exact Hs'|]. rewrite Hl.
    destruct e as [[[[a v] mx] mn] fr]. simpl. rewrite length_app. simpl. lia.
Qed.

Lemma is_special_liar (liars truths : list nat) (i : nat) :
  In i liars -> is_special liars truths i = true.
Proof.
  intros H. unfold is_special. apply orb_true_iff. left.
  apply existsb_exists. exists i. split; [exact H | apply Nat.eqb_refl].
Qed.

Lemma is_special_truth (liars truths : list nat) (i : nat) :
  In i truths -> is_special liars truths i = true.
Proof.
  intros H. unfold is_special. apply orb_true_iff. right.
  apply existsb_exists. exists i. split; [exact H | apply Nat.eqb_refl].
Qed.

Lemma seed_mem_other (st : state) (x i : nat) (k : code) :
  i <> x ->
  mem_dict (seed_mem st x k) i = mem_dict st i /\
  mem_list (seed_mem st x k) i = mem_list st i /\ Hs (seed_mem st x k) i = Hs st i.
Proof.
  intros H. unfold seed_mem, fupd. simpl.
  destruct (Nat.eqb_spec i x); [contradiction | auto].
Qed.

Lemma init_state_liar (liars truths : list nat) (init_person l : nat) :
  NoDup liars -> In l liars -> ~ In l truths -> l <> init_person ->
  mem_dict (init_state liars truths init_person) l = [("11111", 1%Z)]%string /\
  mem_list (init_state liars truths init_person) l = ["11111"]%string /\
  Hs (init_state liars truths init_person) l = 0%R.
Proof.
  intros Hnd Hl HlT Hli. unfold init_state.
  destruct (seed_mem_other
              (fold_left (fun s t => seed_mem s t "00000"%string) truths
                 (fold_left (fun s l => seed_mem s l "11111"%string) liars
                    (mkState (fun _ => []) (fun _ => []) (fun _ => 0%R))))
              init_person l "00000"%string Hli) as (A1 & A2 & A3).
  rewrite A1, A2, A3.
  destruct (seed_fold_out truths "00000"%string
              (fold_left (fun s l => seed_mem s l "11111"%string) liars
                 (mkState (fun _ => []) (fun _ => []) (fun _ => 0%R))) l HlT)
    as (B1 & B2 & B3).
  rewrite B1, B2, B3.
  destruct (seed_fold_in liars "11111"%string
              (mkState (fun _ => []) (fun _ => []) (fun _ => 0%R)) l Hnd Hl)
    as (C1 & C2 & C3).
  rewrite C1, C2, C3. auto.
Qed.

Lemma init_state_truth (liars truths : list nat) (init_person t : nat) :
  NoDup truths -> In t truths -> ~ In t liars -> t <> init_person ->
  mem_dict (init_state liars truths init_person) t = [("00000", 1%Z)]%string /\
  mem_list (init_state liars truths init_person) t = ["00000"]%string /\
  Hs (init_state liars truths init_person) t = 0%R.
Proof.
  intros Hnd Ht HtL Hti. unfold init_state.
  destruct (seed_mem_other
              (fold_left (fun s t => seed_mem s t "00000"%string) truths
                 (fold_left (fun s l => seed_mem s l "11111"%string) liars
                    (mkState (fun _ => []) (fun _ => []) (fun _ => 0%R))))
              init_person t "00000"%string Hti) as (A1 & A2 & A3).
  rewrite A1, A2, A3.
  destruct (seed_fold_in truths "00000"%string
              (fold_left (fun s l => seed_mem s l "11111"%string) liars
                 (mkState (fun _ => []) (fun _ => []) (fun _ => 0%R))) t Hnd Ht)
    as (B1 & B2 & B3).
  rewrite B1, B2, B3.
  destruct (seed_fold_out liars "11111"%string
              (mkState (fun _ => []) (fun _ => []) (fun _ => 0%R)) t HtL)
    as (C1 & C2 & C3).
  rewrite C1, C2, C3. auto.
Qed.

End RunFacts.

(** * Facts for the further properties of the code *)

Module ExtraFacts.

Import GraphFacts MemFacts RunFacts.

Lemma is_bit_cases (a : ascii) : is_bit a = true -> a = "0"%char \/ a = "1"%char.
Proof.
  unfold is_bit. intros H. apply orb_true_iff in H.
  destruct H as [H|H]; apply Ascii.eqb_eq in H; auto.
Qed.

Lemma is_code_cases (r : code) : is_code r = true -> In r all_codes.
Proof.
  destruct r as [|a0 [|a1 [|a2 [|a3 [|a4 [|a5 r]]]]]]; unfold is_code; cbn [String.length all_bits];
    try discriminate.
  intros H. rewrite !andb_true_iff in H.
  destruct H as (_ & H0 & H1 & H2 & H3 & H4 & _).
  apply is_bit_cases in H0, H1, H2, H3, H4.
  destruct H0 as [->| ->], H1 as [->| ->], H2 as [->| ->], H3 as [->| ->], H4 as [->| ->];
    vm_compute; tauto.
Qed.

Lemma all_codes_codes : Forall (fun r => is_code r = true) all_codes.
Proof. vm_compute. repeat constructor. Qed.

Lemma all_codes_nodup : NoDup all_codes.
Proof. vm_compute. repeat constructor; simpl; intuition discriminate. Qed.

Lemma flip_all : forallb (fun r => forallb (flip_ok r) (seq 0 5)) all_codes = true.
Proof. vm_compute. reflexivity. Qed.

Lemma get_beyond (s : string) (p : nat) : String.length s <= p -> String.get p s = None.
Proof.
  revert p; induction s as [|a s IH]; intros p Hp; [destruct p; reflexivity|].
  destruct p as [|p]; simpl in *; [lia|]. apply IH. lia.
Qed.

Lemma code_length (r : code) : is_code r = true -> String.length r = 5.
Proof. unfold is_code. intros H. apply andb_prop in H. apply Nat.eqb_eq, H. Qed.

Lemma flip_spec (r : code) (b : nat) :
  is_code r = true -> b < 5 ->
  is_code (flip r b) = true /\
  (forall p, p <> b -> String.get p (flip r b) = String.get p r) /\
  String.get b (flip r b) <> String.get b r /\
  flip (flip r b) b = r.
Proof.
  intros Hr Hb.
  assert (Hok : flip_ok r b = true).
  { pose proof flip_all as Hall. rewrite forallb_forall in Hall.
    specialize (Hall r (is_code_cases r Hr)). rewrite forallb_forall in Hall.
    apply Hall, in_seq. lia. }
  unfold flip_ok in Hok. rewrite !andb_true_iff in Hok.
  destruct Hok as (((Hc & Hp) & Hd) & Hinv).
  split; [exact Hc|]. split; [|split].
  - intros p Hpb. destruct (Nat.lt_ge_cases p 5) as [Hp5|Hp5].
    + rewrite forallb_forall in Hp. specialize (Hp p (proj2 (in_seq 5 0 p) (conj (Nat.le_0_l p) Hp5))).
      apply orb_true_iff in Hp. destruct Hp as [Hp|Hp]; [apply Nat.eqb_eq in Hp; contradiction|].
      destruct (String.get p (flip r b)), (String.get p r); try discriminate.
      apply Ascii.eqb_eq in Hp. subst. reflexivity.
    + rewrite !get_beyond; [reflexivity | rewrite code_length by exact Hr; lia
                          | rewrite code_length by exact Hc; lia].
  - destruct (String.get b (flip r b)), (String.get b r); try discriminate.
    intros E; injection E as ->. rewrite Ascii.eqb_refl in Hd. discriminate.
  - apply String.eqb_eq, Hinv.
Qed.

Lemma get_mc_in (c : counter) (pick : nat -> nat) :
  c <> [] -> NoDup (ckeys c) -> (forall b, 0 < b -> pick b < b) ->
  In (get_mc c pick) (ckeys c).
Proof. intros Hne Hnd Hp. apply (get_mc_max c pick Hne Hnd Hp). Qed.

Lemma node_local_codes (cfg : config) (sp : bool) (dr : node_draws) (c : counter)
  (l : list code) (h : R) :
  wf c l -> Forall (fun s => is_code s = true) l -> valid_draws dr -> d_bitflip dr < 5 ->
  Forall (fun s => is_code s = true) (snd (fst (fst (node_local cfg sp dr c l h)))) /\
  (forall r, snd (node_local cfg sp dr c l h) = Some r -> is_code r = true).
Proof.
  intros Hwf Hl Hd Hb. unfold node_local. cbv zeta.
  destruct (csum c =? 0)%Z eqn:Hz; [simpl; split; [exact Hl | discriminate]|].
  assert (Hne : c <> []) by (intros ->; discriminate).
  assert (Hkey : forall k, In k (ckeys c) -> is_code k = true)
    by (intros k Hk; apply (wf_in c l k Hwf) in Hk;
        rewrite Forall_forall in Hl; apply Hl, Hk).
  destruct sp.
  - simpl. split; [exact Hl|]. intros r Hr; injection Hr as <-.
    apply Hkey, get_mc_in; [exact Hne | apply Hwf | apply Hd].
  - pose proof (select_rumor_in cfg dr c Hne (proj1 Hwf) Hd) as Hr.
    pose proof (Hkey _ Hr) as Hrc.
    destruct (flip_spec _ (d_bitflip dr) Hrc Hb) as (Hfc & _).
    destruct (d_mutate dr _); simpl.
    + destruct (mutate_held_spec c l _ (flip (select_rumor cfg dr c) (d_bitflip dr)) Hwf Hr)
        as (_ & _ & _ & pre & post & Hl0 & _ & Hl').
      unfold mutate_held in Hl'; simpl in Hl'.
      split; [|intros r E; injection E as <-; exact Hfc].
      rewrite Hl'. rewrite Hl0 in Hl. apply Forall_app in Hl. destruct Hl as [Hpre Hpost].
      inversion Hpost; subst. apply Forall_app. split; [exact Hpre|]. constructor; assumption.
    + split; [exact Hl|]. intros r E; injection E as <-. exact Hrc.
Qed.

Lemma enqueue_codes (cfg : config) (liars truths : list nat) (d : node_draws) (i : nat)
  (r : code) (u : nat -> list code) :
  is_code r = true -> (forall j, Forall (fun s => is_code s = true) (u j)) ->
  forall j, Forall (fun s => is_code s = true) (enqueue cfg liars truths d i r u j).
Proof.
  intros Hr. unfold enqueue. revert u.
  induction (flatnonzero (edges cfg) (n_nodes cfg) i) as [|x xs IH]; intros u Hu; simpl;
    [exact Hu|].
  apply IH. destruct (is_special liars truths x); [exact Hu|].
  destruct (d_accept d x (eta cfg x i)); [|exact Hu].
  intros j. unfold fupd. destruct (j =? x); [|apply Hu].
  apply Forall_app. split; [apply Hu | constructor; [exact Hr | constructor]].
Qed.

Lemma insert_codes (Lc : Z) (c : counter) (l : list code) (up : code) :
  Forall (fun s => is_code s = true) l -> is_code up = true ->
  Forall (fun s => is_code s = true) (snd (insert Lc (c, l) up)).
Proof.
  intros Hl Hu. assert (H1 : Forall (fun s => is_code s = true) (l ++ [up]))
    by (apply Forall_app; split; [exact Hl | constructor; [exact Hu | constructor]]).
  unfold insert. cbn [fst snd].
  destruct (Lc <? Z.of_nat (length (l ++ [up])))%Z; [|exact H1].
  destruct (l ++ [up]) as [|x rest]; [exact H1|]. inversion H1; assumption.
Qed.

Lemma insert_fold_codes (Lc : Z) (us : list code) (c : counter) (l : list code) :
  wf c l -> Forall (fun s => is_code s = true) l -> Forall (fun s => is_code s = true) us ->
  wf (fst (fold_left (insert Lc) us (c, l))) (snd (fold_left (insert Lc) us (c, l))) /\
  Forall (fun s => is_code s = true) (snd (fold_left (insert Lc) us (c, l))).
Proof.
  revert c l. induction us as [|u us IH]; intros c l Hw Hl Hus; simpl; [auto|].
  inversion Hus; subst.
  pose proof (proj1 (insert_spec Lc c l u Hw)) as Hw'.
  pose proof (insert_codes Lc c l u Hl ltac:(assumption)) as Hl'.
  destruct (insert Lc (c, l) u) as [c' l'] eqn:E. apply IH; assumption.
Qed.

Lemma round_codes (cfg : config) (liars truths : list nat) (d : nat -> node_draws)
  (st : state) :
  (forall i, valid_draws (d i) /\ d_bitflip (d i) < 5) ->
  codes_inv st -> codes_inv (fst (round cfg liars truths d st)).
Proof.
  intros Hd Hinv i. rewrite round_eq_sync. unfold round_sync. cbn [fst snd].
  assert (Hq : forall k j, Forall (fun s => is_code s = true)
                             (queue_local cfg liars truths d st k j)).
  { intros k. unfold queue_local.
    assert (Hgen : forall xs (u : nat -> list code),
      (forall j, Forall (fun s => is_code s = true) (u j)) ->
      forall j, Forall (fun s => is_code s = true)
        (fold_left (fun u i => match snd (local_result cfg liars truths d st i) with
                               | None => u
                               | Some r => enqueue cfg liars truths (d i) i r u
                               end) xs u j)).
    { induction xs as [|x xs IH]; intros u Hu; simpl; [exact Hu|]. apply IH.
      destruct (snd (local_result cfg liars truths d st x)) as [r|] eqn:Er; [|exact Hu].
      apply enqueue_codes; [|exact Hu].
      destruct (Hinv x) as [Hw Hl]. destruct (Hd x) as [Hv Hb].
      exact (proj2 (node_local_codes cfg _ _ _ _ (Hs st x) Hw Hl Hv Hb) r Er). }
    apply Hgen. intros j. constructor. }
  pose proof (apply_updates_at cfg (after_local cfg liars truths d st (n_nodes cfg))
                (queue_local cfg liars truths d st (n_nodes cfg)) i) as HA.
  cbv zeta in HA. destruct HA as (H1 & H2 & _). rewrite H1, H2.
  destruct (Hinv i) as [Hw Hl].
  destruct (Nat.ltb_spec i (n_nodes cfg)) as [Hi|Hi].
  - assert (Ea : mem_dict (after_local cfg liars truths d st (n_nodes cfg)) i =
                 fst (fst (fst (local_result cfg liars truths d st i))))
      by (unfold after_local; cbn [mem_dict];
          destruct (Nat.ltb_spec i (n_nodes cfg)); [reflexivity | lia]).
    assert (Eb : mem_list (after_local cfg liars truths d st (n_nodes cfg)) i =
                 snd (fst (fst (local_result cfg liars truths d st i))))
      by (unfold after_local; cbn [mem_list];
          destruct (Nat.ltb_spec i (n_nodes cfg)); [reflexivity | lia]).
    rewrite Ea, Eb. unfold local_result.
    destruct (Hd i) as [Hv Hb].
    pose proof (proj1 (node_local_wf cfg (is_special liars truths i) (d i) (mem_dict st i)
                (mem_list st i) (Hs st i) Hw Hv)) as Hw'.
    pose proof (proj1 (node_local_codes cfg (is_special liars truths i) (d i) (mem_dict st i)
                (mem_list st i) (Hs st i) Hw Hl Hv Hb)) as Hl'.
    apply insert_fold_codes; [exact Hw' | exact Hl' | apply Hq].
  - unfold after_local. cbn [mem_dict mem_list].
    destruct (Nat.ltb_spec i (n_nodes cfg)); [lia|]. auto.
Qed.

Lemma seed_codes (xs : list nat) (k : code) (st : state) :
  is_code k = true -> codes_inv st ->
  codes_inv (fold_left (fun s x => seed_mem s x k) xs st).
Proof.
  intros Hk. revert st. induction xs as [|x xs IH]; intros st Hst; simpl; [exact Hst|].
  apply IH. intros j. unfold seed_mem, fupd. cbn [mem_dict mem_list].
  destruct (j =? x); [|apply Hst]. destruct (Hst x) as [Hw Hl].
  split; [apply wf_cincr_app, Hw|].
  apply Forall_app. split; [exact Hl | constructor; [exact Hk | constructor]].
Qed.

Lemma init_codes (liars truths : list nat) (init_person : nat) :
  codes_inv (init_state liars truths init_person).
Proof.
  unfold init_state.
  apply (seed_codes [init_person]); [reflexivity|].
  apply seed_codes; [reflexivity|]. apply seed_codes; [reflexivity|].
  intros j. split; [apply wf_nil | constructor].
Qed.

Lemma states_codes (cfg : config) (liars truths : list nat) (dr : nat -> nat -> node_draws)
  (itnum k : nat) (st : state) :
  (forall it i, valid_draws (dr it i) /\ d_bitflip (dr it i) < 5) ->
  codes_inv st -> codes_inv (states cfg liars truths dr itnum k st).
Proof.
  intros Hd. revert itnum st. induction k as [|k IH]; intros itnum st Hst;
    cbn [states]; [exact Hst|].
  apply IH, round_codes; [apply Hd | exact Hst].
Qed.

Local Open Scope R_scope.

Lemma fold_Rplus_shift (l : list R) (a : R) : fold_left Rplus l a = a + fold_left Rplus l 0.
Proof.
  revert a; induction l as [|x l IH]; intros a; simpl; [ring|].
  rewrite (IH (a + x)), (IH (0 + x)). ring.
Qed.

Lemma fold_Rplus_nonneg (l : list R) :
  (forall x, In x l -> 0 <= x) -> 0 <= fold_left Rplus l 0.
Proof.
  induction l as [|x l IH]; intros Hl; simpl; [lra|].
  rewrite fold_Rplus_shift. pose proof (Hl x (or_introl eq_refl)).
  assert (0 <= fold_left Rplus l 0) by (apply IH; intros y Hy; apply Hl; right; exact Hy).
  lra.
Qed.

Lemma sum_lb (l : list R) (lo : R) :
  (forall x, In x l -> lo <= x) -> INR (length l) * lo <= fold_left Rplus l 0.
Proof.
  induction l as [|x l IH]; intros Hl; cbn [length fold_left]; [simpl; lra|].
  rewrite fold_Rplus_shift, S_INR. pose proof (Hl x (or_introl eq_refl)).
  assert (INR (length l) * lo <= fold_left Rplus l 0)
    by (apply IH; intros y Hy; apply Hl; right; exact Hy).
  lra.
Qed.

Lemma sum_ub (l : list R) (hi : R) :
  (forall x, In x l -> x <= hi) -> fold_left Rplus l 0 <= INR (length l) * hi.
Proof.
  induction l as [|x l IH]; intros Hl; cbn [length fold_left]; [simpl; lra|].
  rewrite fold_Rplus_shift, S_INR. pose proof (Hl x (or_introl eq_refl)).
  assert (fold_left Rplus l 0 <= INR (length l) * hi)
    by (apply IH; intros y Hy; apply Hl; right; exact Hy).
  lra.
Qed.

Lemma fold_Rmin_spec (l : list R) (a : R) :
  fold_left Rmin l a <= a /\ forall x, In x l -> fold_left Rmin l a <= x.
Proof.
  revert a; induction l as [|y l IH]; intros a; simpl; [split; [lra | tauto]|].
  destruct (IH (Rmin a y)) as [H1 H2].
  pose proof (Rmin_l a y). pose proof (Rmin_r a y).
  split; [lra|]. intros x [<-|Hx]; [lra | apply H2, Hx].
Qed.

Lemma fold_Rmax_spec (l : list R) (a : R) :
  a <= fold_left Rmax l a /\ forall x, In x l -> x <= fold_left Rmax l a.
Proof.
  revert a; induction l as [|y l IH]; intros a; simpl; [split; [lra | tauto]|].
  destruct (IH (Rmax a y)) as [H1 H2].
  pose proof (Rmax_l a y). pose proof (Rmax_r a y).
  split; [lra|]. intros x [<-|Hx]; [lra | apply H2, Hx].
Qed.

Lemma fold_Rmin_lb (l : list R) (a lo : R) :
  lo <= a -> (forall x, In x l -> lo <= x) -> lo <= fold_left Rmin l a.
Proof.
  revert a; induction l as [|y l IH]; intros a Ha Hl; simpl; [exact Ha|].
  apply IH; [apply Rmin_glb; [exact Ha | apply Hl; left; reflexivity]|].
  intros x Hx; apply Hl; right; exact Hx.
Qed.

(** The stats of one round are ordered when every [H] entry is [>= 0]. *)
Lemma round_stats_order (cfg : config) (st : state) (sd : nat -> nat -> nat)
  (avg var mx mn : R) (fr : list R) :
  (forall i, (i < n_nodes cfg)%nat -> 0 <= Hs st i) ->
  round_stats cfg st sd = Some (avg, var, mx, mn, fr) ->
  0 <= mn /\ mn <= avg /\ avg <= mx /\ 0 <= var.
Proof.
  intros Hpos. unfold round_stats.
  assert (Hin : forall x, In x (map (Hs st) (seq 0 (n_nodes cfg))) -> 0 <= x).
  { intros x Hx. apply in_map_iff in Hx. destruct Hx as (i & <- & Hi).
    apply in_seq in Hi. apply Hpos. lia. }
  assert (Hlen : length (map (Hs st) (seq 0 (n_nodes cfg))) = n_nodes cfg)
    by (rewrite length_map, length_seq; reflexivity).
  destruct (map (Hs st) (seq 0 (n_nodes cfg))) as [|h0 Hr] eqn:EH; [discriminate|].
  intros Heq. injection Heq as Ea Ev Ex Em _.
  set (n := n_nodes cfg) in *.
  set (f := fun x => (x - fold_left Rplus (h0 :: Hr) 0 / INR n) ^ 2 / INR n) in *.
  change (fold_left Rplus Hr (0 + h0)) with (fold_left Rplus (h0 :: Hr) 0) in Ea, Ev.
  change (fold_left Rplus (map f (h0 :: Hr)) 0 = var) in Ev.
  assert (Hn : 0 < INR n) by (apply lt_0_INR; simpl in Hlen; lia).
  destruct (fold_Rmin_spec Hr h0) as [Hm1 Hm2].
  destruct (fold_Rmax_spec Hr h0) as [Hx1 Hx2].
  assert (Hlo : INR n * mn <= fold_left Rplus (h0 :: Hr) 0).
  { rewrite <- Hlen, <- Em. apply sum_lb. intros x [<-|Hx]; [exact Hm1 | apply Hm2, Hx]. }
  assert (Hhi : fold_left Rplus (h0 :: Hr) 0 <= INR n * mx).
  { rewrite <- Hlen, <- Ex. apply sum_ub. intros x [<-|Hx]; [exact Hx1 | apply Hx2, Hx]. }
  split; [|split; [|split]].
  - rewrite <- Em. apply fold_Rmin_lb; [apply Hin; left; reflexivity|].
    intros x Hx. apply Hin. right. exact Hx.
  - rewrite <- Ea. apply (Rmult_le_reg_l (INR n)); [exact Hn|].
    replace (INR n * (fold_left Rplus (h0 :: Hr) 0 / INR n))
      with (fold_left Rplus (h0 :: Hr) 0) by (field; lra). exact Hlo.
  - rewrite <- Ea. apply (Rmult_le_reg_l (INR n)); [exact Hn|].
    replace (INR n * (fold_left Rplus (h0 :: Hr) 0 / INR n))
      with (fold_left Rplus (h0 :: Hr) 0) by (field; lra). exact Hhi.
  - rewrite <- Ev. apply fold_Rplus_nonneg. intros x Hx. apply in_map_iff in Hx.
    destruct Hx as (y & <- & _). unfold Rdiv. apply Rmult_le_pos; [apply pow2_ge_0|].
    apply Rlt_le, Rinv_0_lt_compat, Hn.
Qed.

Lemma csum_nonneg (c : counter) : (forall p, In p c -> (0 < snd p)%Z) -> (0 <= csum c)%Z.
Proof.
  induction c as [|[k v] c IH]; intros Hp; [reflexivity|].
  rewrite csum_cons. pose proof (Hp (k, v) (or_introl eq_refl)). simpl in H.
  assert (0 <= csum c)%Z by (apply IH; intros p Hp'; apply Hp; right; exact Hp'). lia.
Qed.

Lemma in_le_csum (c : counter) (p : code * Z) :
  (forall q, In q c -> (0 < snd q)%Z) -> In p c -> (snd p <= csum c)%Z.
Proof.
  induction c as [|[k v] c IH]; intros Hp Hin; [destruct Hin|].
  rewrite csum_cons. assert (Ht : forall q, In q c -> (0 < snd q)%Z)
    by (intros q Hq; apply Hp; right; exact Hq).
  pose proof (csum_nonneg c Ht). pose proof (Hp (k, v) (or_introl eq_refl)). simpl in *.
  destruct Hin as [<-|Hin]; [simpl; lia|]. pose proof (IH Ht Hin). lia.
Qed.

Lemma entropy_term_nonneg (v T : Z) :
  (0 < v <= T)%Z -> 0 <= - (IZR v / IZR T) * (ln (IZR v / IZR T) / ln 2).
Proof.
  intros Hv. assert (HT : 0 < IZR T) by (apply IZR_lt; lia).
  assert (Hp : 0 < IZR v / IZR T) by (apply Rdiv_lt_0_compat; [apply IZR_lt; lia | exact HT]).
  assert (Hp1 : IZR v / IZR T <= 1).
  { apply (Rmult_le_reg_r (IZR T)); [exact HT|].
    replace (IZR v / IZR T * IZR T) with (IZR v) by (field; lra).
    rewrite Rmult_1_l. apply IZR_le. lia. }
  assert (Hln : ln (IZR v / IZR T) <= 0).
  { rewrite <- ln_1. destruct (Rle_lt_or_eq _ _ Hp1) as [Hlt|Heq]; [|rewrite Heq; lra].
    apply Rlt_le, ln_increasing; assumption. }
  assert (Hl2 : 0 < ln 2) by (rewrite <- ln_1; apply ln_increasing; lra).
  assert (Hq : ln (IZR v / IZR T) / ln 2 <= 0).
  { unfold Rdiv. pose proof (Rinv_0_lt_compat _ Hl2). nra. }
  nra.
Qed.

Lemma entropy_nonneg (c : counter) (l : list code) :
  wf c l -> 0 <= entropy c (csum c).
Proof.
  intros (_ & _ & Hp & _). unfold entropy. apply fold_Rplus_nonneg.
  intros x Hx. rewrite map_map in Hx. apply in_map_iff in Hx. destruct Hx as (p & <- & Hin).
  apply entropy_term_nonneg. split; [apply Hp, Hin | apply in_le_csum; assumption].
Qed.

Lemma entropy_single (k : code) (v : Z) : (0 < v)%Z -> entropy [(k, v)] (csum [(k, v)]) = 0.
Proof.
  intros Hv. unfold entropy. rewrite csum_cons. cbn [map fold_left snd].
  replace (v + csum [])%Z with v by (unfold csum; simpl; lia).
  assert (IZR v <> 0) by (apply not_0_IZR; lia).
  replace (IZR v / IZR v) with 1 by (field; exact H). rewrite ln_1. field.
  apply Rgt_not_eq, Rlt_gt. rewrite <- ln_1; apply ln_increasing; lra.
Qed.

Lemma node_local_H (cfg : config) (sp : bool) (dr : node_draws) (c : counter)
  (l : list code) (h : R) :
  wf c l -> 0 <= h -> 0 <= snd (fst (node_local cfg sp dr c l h)).
Proof.
  intros Hwf Hh. unfold node_local. cbv zeta.
  destruct (csum c =? 0)%Z; [exact Hh|]. destruct sp; [exact Hh|].
  destruct (d_mutate dr _); simpl; apply (entropy_nonneg c l Hwf).
Qed.

Lemma round_H (cfg : config) (liars truths : list nat) (d : nat -> node_draws)
  (st : state) :
  codes_inv st -> (forall i, 0 <= Hs st i) ->
  forall i, 0 <= Hs (fst (round cfg liars truths d st)) i.
Proof.
  intros Hinv Hh i. rewrite round_eq_sync. unfold round_sync. cbn [fst].
  pose proof (apply_updates_at cfg (after_local cfg liars truths d st (n_nodes cfg))
                (queue_local cfg liars truths d st (n_nodes cfg)) i) as HA.
  cbv zeta in HA. destruct HA as (_ & _ & H3). rewrite H3.
  unfold after_local, local_result. cbn [Hs].
  destruct (i <? n_nodes cfg); [|apply Hh].
  apply node_local_H; [apply Hinv | apply Hh].
Qed.

Lemma init_H (liars truths : list nat) (init_person : nat) (i : nat) :
  0 <= Hs (init_state liars truths init_person) i.
Proof.
  unfold init_state. cbn [fold_left].
  assert (Hf : forall xs k st, Hs (fold_left (fun s x => seed_mem s x k) xs st) = Hs st).
  { induction xs as [|x xs IH]; intros k st; simpl; [reflexivity|]. rewrite IH. reflexivity. }
  unfold seed_mem at 1. cbn [Hs]. rewrite !Hf. simpl. lra.
Qed.

Lemma states_H (cfg : config) (liars truths : list nat) (dr : nat -> nat -> node_draws)
  (itnum k : nat) (st : state) :
  (forall it i, valid_draws (dr it i) /\ (d_bitflip (dr it i) < 5)%nat) ->
  codes_inv st -> (forall i, 0 <= Hs st i) ->
  forall i, 0 <= Hs (states cfg liars truths dr itnum k st) i.
Proof.
  intros Hd. revert itnum st. induction k as [|k IH]; intros itnum st Hc Hh;
    cbn [states]; [exact Hh|].
  apply IH; [apply round_codes; [apply Hd | exact Hc] | apply round_H; assumption].
Qed.

Local Close Scope R_scope.

Lemma list_sum_map_add {A} (g h : A -> nat) (l : list A) :
  list_sum (map (fun b => g b + h b) l) = list_sum (map g l) + list_sum (map h l).
Proof. induction l as [|x l IH]; simpl; [reflexivity|]. rewrite IH. lia. Qed.

Lemma list_sum_indicator (bins : list code) (x : code) :
  list_sum (map (fun b => if string_dec x b then 1 else 0) bins) = count_occ string_dec bins x.
Proof.
  induction bins as [|y bins IH]; simpl; [reflexivity|]. rewrite IH.
  destruct (string_dec x y), (string_dec y x); subst; try congruence; reflexivity.
Qed.

Lemma count_bins (bins l : list code) :
  NoDup bins ->
  list_sum (map (fun b => count_occ string_dec l b) bins) =
  length (filter (fun x => if in_dec string_dec x bins then true else false) l).
Proof.
  intros Hnd. induction l as [|x l IH].
  - simpl. induction bins as [|y bins IHb]; [reflexivity|]. simpl.
    inversion Hnd; subst. apply IHb. assumption.
  - cbn [count_occ].
    replace (map (fun b => if string_dec x b then S (count_occ string_dec l b)
                           else count_occ string_dec l b) bins)
      with (map (fun b => (if string_dec x b then 1 else 0) + count_occ string_dec l b) bins)
      by (apply map_ext; intros b; destruct (string_dec x b); reflexivity).
    rewrite list_sum_map_add, list_sum_indicator. cbn [filter].
    destruct (in_dec string_dec x bins) as [Hi|Hi]; cbn [length]; rewrite <- IH.
    + rewrite (proj1 (NoDup_count_occ' string_dec bins) Hnd x Hi). reflexivity.
    + rewrite (proj1 (count_occ_not_In string_dec bins x) Hi). reflexivity.
Qed.

Lemma count_le_length (l : list code) (b : code) : count_occ string_dec l b <= length l.
Proof. induction l as [|x l IH]; simpl; [lia|]. destruct (string_dec x b); lia. Qed.

Lemma filter_le_length {A} (f : A -> bool) (l : list A) : length (filter f l) <= length l.
Proof. induction l as [|x l IH]; simpl; [lia|]. destruct (f x); simpl; lia. Qed.

Local Open Scope R_scope.

Lemma sum_map_div {A} (g : A -> nat) (d : R) (l : list A) :
  fold_left Rplus (map (fun a => INR (g a) / d) l) 0 = INR (list_sum (map g l)) / d.
Proof.
  induction l as [|x l IH]; simpl; [unfold Rdiv; ring|].
  rewrite fold_Rplus_shift, IH, plus_INR. unfold Rdiv. ring.
Qed.

Lemma frac_unit (k n : nat) : (k <= n)%nat -> (0 < n)%nat -> 0 <= INR k / INR n <= 1.
Proof.
  intros Hk Hn. assert (HnR : 0 < INR n) by (apply lt_0_INR; exact Hn).
  split; [unfold Rdiv; apply Rmult_le_pos; [apply pos_INR | apply Rlt_le, Rinv_0_lt_compat, HnR]|].
  apply (Rmult_le_reg_r (INR n)); [exact HnR|].
  replace (INR k / INR n * INR n) with (INR k) by (field; lra).
  rewrite Rmult_1_l. apply le_INR. exact Hk.
Qed.

(** The opinion column of one round: 32 entries in [0, 1], and
    [n * sum] is the number of nodes whose majority is a five-bit code. *)
Lemma round_stats_frag (cfg : config) (st : state) (sd : nat -> nat -> nat)
  (avg var mx mn : R) (fr : list R) :
  round_stats cfg st sd = Some (avg, var, mx, mn, fr) ->
  length fr = 32%nat /\ (forall f, In f fr -> 0 <= f <= 1) /\
  sumR fr * INR (n_nodes cfg) =
    INR (length (filter (fun x => if in_dec string_dec x all_codes then true else false)
      (map (fun i => get_mc (mem_dict st i) (sd i))
         (filter (fun i => negb (match ckeys (mem_dict st i) with
                                 | [] => true | _ => false end))
            (seq 0 (n_nodes cfg)))))).
Proof.
  unfold round_stats.
  destruct (map (Hs st) (seq 0 (n_nodes cfg))) as [|h0 Hr] eqn:EH; [discriminate|].
  assert (Hn : (0 < n_nodes cfg)%nat)
    by (destruct (n_nodes cfg); [discriminate | lia]).
  assert (HnR : 0 < INR (n_nodes cfg)) by (apply lt_0_INR; exact Hn).
  remember (seq 0 32) as s32 eqn:E32.
  intros Heq. injection Heq as _ _ _ _ <-.
  set (ops := map (fun i => get_mc (mem_dict st i) (sd i)) _).
  assert (Hops : (length ops <= n_nodes cfg)%nat).
  { unfold ops. rewrite length_map. rewrite <- (length_seq (n_nodes cfg) 0) at 2.
    apply filter_le_length. }
  split; [rewrite length_map, E32, length_seq; reflexivity|]. split.
  - intros f Hf. apply in_map_iff in Hf. destruct Hf as (a & <- & _).
    apply frac_unit; [|exact Hn]. eapply Nat.le_trans; [apply count_le_length | exact Hops].
  - unfold sumR. rewrite sum_map_div, E32.
    rewrite <- (map_map (bits 5) (fun b => count_occ string_dec ops b)).
    fold all_codes. rewrite count_bins by apply all_codes_nodup. field. lra.
Qed.

Local Close Scope R_scope.

Lemma filter_all {A} (f : A -> bool) (l : list A) :
  (forall x, In x l -> f x = true) -> filter f l = l.
Proof.
  induction l as [|x l IH]; intros Hl; simpl; [reflexivity|].
  rewrite (Hl x (or_introl eq_refl)), IH by (intros y Hy; apply Hl; right; exact Hy).
  reflexivity.
Qed.

Lemma keys_nonempty (c : counter) (l : list code) :
  wf c l ->
  negb (match ckeys c with [] => true | _ => false end) =
  match l with [] => false | _ => true end.
Proof.
  intros Hw. destruct (ckeys c) as [|k ks] eqn:Ek, l as [|x l'] eqn:El; try reflexivity.
  - exfalso. pose proof (proj2 (wf_in c (x :: l') x Hw) (or_introl eq_refl)) as Hx.
    rewrite Ek in Hx. destruct Hx.
  - exfalso. assert (Hk : In k (ckeys c)) by (rewrite Ek; left; reflexivity).
    apply (wf_in c [] k Hw) in Hk. destruct Hk.
Qed.

Lemma majority_code (c : counter) (l : list code) (pick : nat -> nat) :
  wf c l -> Forall (fun s => is_code s = true) l -> (forall b, 0 < b -> pick b < b) ->
  ckeys c <> [] -> In (get_mc c pick) (ckeys c) /\ is_code (get_mc c pick) = true.
Proof.
  intros Hw Hl Hp Hk.
  assert (Hne : c <> []) by (intros ->; apply Hk; reflexivity).
  assert (Hin : In (get_mc c pick) (ckeys c)) by (apply get_mc_in; [exact Hne | apply Hw | exact Hp]).
  split; [exact Hin|]. apply (wf_in c l _ Hw) in Hin.
  rewrite Forall_forall in Hl. apply Hl, Hin.
Qed.

Local Open Scope R_scope.

Lemma round_stats_frag_exact (cfg : config) (st : state) (sd : nat -> nat -> nat)
  (avg var mx mn : R) (fr : list R) :
  codes_inv st -> (forall i b, (0 < b)%nat -> (sd i b < b)%nat) ->
  round_stats cfg st sd = Some (avg, var, mx, mn, fr) ->
  sumR fr * INR (n_nodes cfg) = INR (length (filter (holds_rumor st) (seq 0 (n_nodes cfg)))).
Proof.
  intros Hinv Hsd Hrs. destruct (round_stats_frag cfg st sd avg var mx mn fr Hrs) as (_ & _ & ->).
  f_equal. rewrite filter_all.
  - rewrite length_map. f_equal. apply filter_ext. intros i.
    unfold holds_rumor. apply keys_nonempty, Hinv.
  - intros x Hx. apply in_map_iff in Hx. destruct Hx as (i & <- & Hi).
    apply filter_In in Hi. destruct Hi as [_ Hi].
    destruct (Hinv i) as [Hw Hl].
    assert (Hk : ckeys (mem_dict st i) <> []) by (intros E; rewrite E in Hi; discriminate).
    destruct (majority_code _ _ (sd i) Hw Hl (Hsd i) Hk) as [_ Hc].
    destruct (in_dec string_dec (get_mc (mem_dict st i) (sd i)) all_codes) as [_|Hn];
      [reflexivity|]. exfalso. apply Hn, is_code_cases, Hc.
Qed.

(** The series built by [run_loop]. *)
Lemma push_fold (es : list (R * R * R * R * list R)) (acc : stats) :
  avgH (fold_left push_stats es acc) = avgH acc ++ map (fun e => fst (fst (fst (fst e)))) es /\
  varH (fold_left push_stats es acc) = varH acc ++ map (fun e => snd (fst (fst (fst e)))) es /\
  maxH (fold_left push_stats es acc) = maxH acc ++ map (fun e => snd (fst (fst e))) es /\
  minH (fold_left push_stats es acc) = minH acc ++ map (fun e => snd (fst e)) es /\
  opinion_frag (fold_left push_stats es acc) = opinion_frag acc ++ map snd es.
Proof.
  revert acc. induction es as [|e es IH]; intros acc; simpl; [rewrite !app_nil_r; auto|].
  destruct (IH (push_stats acc e)) as (H1 & H2 & H3 & H4 & H5).
  rewrite H1, H2, H3, H4, H5. destruct e as [[[[a v] x] m] f]. simpl.
  rewrite <- !app_assoc. auto.
Qed.

Lemma run_loop_rows (cfg : config) (liars truths : list nat) (dr : nat -> nat -> node_draws)
  (sd : nat -> nat -> nat -> nat) (I : state -> Prop) (Q : R * R * R * R * list R -> Prop) :
  (forall it st, I st -> I (fst (round cfg liars truths (dr it) st))) ->
  (forall it st e, I st -> round_stats cfg st (sd it) = Some e -> Q e) ->
  forall itnum k st acc st' s,
  I st -> run_loop cfg liars truths dr sd itnum k st acc = Some (st', s) ->
  exists es, length es = k /\ Forall Q es /\ s = fold_left push_stats es acc.
Proof.
  intros HI HQ itnum k. revert itnum. induction k as [|k IH]; intros itnum st acc st' s Hst;
    cbn [run_loop].
  - intros E; injection E as _ <-. exists []. auto.
  - destruct (round_stats cfg (fst (round cfg liars truths (dr itnum) st)) (sd itnum))
      as [e|] eqn:He; [|discriminate].
    intros Hr. destruct (IH _ _ _ _ _ (HI itnum st Hst) Hr) as (es & Hl & Hq & ->).
    exists (e :: es). split; [simpl; lia|]. split; [|reflexivity].
    constructor; [apply (HQ itnum _ e (HI itnum st Hst) He) | exact Hq].
Qed.

Lemma run_rumors_rows (init_person : nat) (cfg : config) (num_rounds liarnum truthnum : nat)
  (liar_idx truth_idx : list nat) (dr : nat -> nat -> node_draws)
  (sd : nat -> nat -> nat -> nat) (I : state -> Prop) (Q : R * R * R * R * list R -> Prop)
  (s : stats) :
  (forall liars truths, I (init_state liars truths init_person)) ->
  (forall liars truths it st, I st -> I (fst (round cfg liars truths (dr it) st))) ->
  (forall it st e, I st -> round_stats cfg st (sd it) = Some e -> Q e) ->
  run_rumors init_person cfg num_rounds liarnum truthnum liar_idx truth_idx dr sd = Some s ->
  exists es, length es = num_rounds /\ Forall Q es /\ s = fold_left push_stats es empty_stats.
Proof.
  intros Hi Hr Hq. unfold run_rumors.
  destruct (choice_wo _ liarnum liar_idx) as [liars|]; [|discriminate].
  destruct (choice_wo _ truthnum truth_idx) as [truths|]; [|discriminate].
  destruct (run_loop _ _ _ _ _ _ _ _ _) as [[st' s']|] eqn:E; [|discriminate].
  intros Es; injection Es as <-.
  exact (run_loop_rows cfg liars truths dr sd I Q (Hr liars truths) Hq _ _ _ _ _ _
           (Hi liars truths) E).
Qed.

Local Close Scope R_scope.

(** ** Role sampling *)

Lemma filter_compl_length {A} (f : A -> bool) (l : list A) :
  length (filter f l) + length (filter (fun x => negb (f x)) l) = length l.
Proof. induction l as [|x l IH]; simpl; [reflexivity|]. destruct (f x); simpl; lia. Qed.

Lemma pool_length (xs : list nat) (n : nat) :
  NoDup xs -> (forall x, In x xs -> x < n) ->
  length (filter (fun k => negb (existsb (Nat.eqb k) xs)) (seq 0 n)) = n - length xs.
Proof.
  intros Hnd Hlt.
  pose proof (filter_compl_length (fun k => negb (existsb (Nat.eqb k) xs)) (seq 0 n)) as Hc.
  rewrite length_seq in Hc.
  assert (Hp : Permutation (filter (fun x => negb (negb (existsb (Nat.eqb x) xs))) (seq 0 n)) xs).
  { apply NoDup_Permutation; [apply NoDup_filter, seq_NoDup | exact Hnd|].
    intros x. rewrite filter_In, negb_involutive, in_seq, existsb_exists. split.
    - intros (_ & y & Hy & Hxy). apply Nat.eqb_eq in Hxy. subst. exact Hy.
    - intros Hx. split; [specialize (Hlt x Hx); lia|]. exists x. split; [exact Hx | apply Nat.eqb_refl]. }
  apply Permutation_length in Hp. lia.
Qed.

Lemma liar_pool_spec (n ip : nat) :
  NoDup (liar_pool n ip) /\ (forall x, In x (liar_pool n ip) <-> x < n /\ x <> ip) /\
  (ip < n -> length (liar_pool n ip) = n - 1).
Proof.
  split; [apply NoDup_filter, seq_NoDup|]. split.
  - intros x. unfold liar_pool. rewrite filter_In, in_seq, negb_true_iff, Nat.eqb_neq. lia.
  - intros Hip. unfold liar_pool.
    rewrite (filter_ext _ (fun k => negb (existsb (Nat.eqb k) [ip])))
      by (intros k; simpl; rewrite orb_false_r; reflexivity).
    rewrite pool_length; [reflexivity | repeat constructor; simpl; tauto |].
    intros x [<-|[]]; exact Hip.
Qed.

Lemma truth_pool_spec (n ip : nat) (liars : list nat) :
  NoDup (truth_pool n ip liars) /\
  (forall x, In x (truth_pool n ip liars) <-> x < n /\ ~ In x liars /\ x <> ip) /\
  (ip < n -> NoDup liars -> (forall x, In x liars -> x < n /\ x <> ip) ->
   length (truth_pool n ip liars) = n - 1 - length liars).
Proof.
  split; [apply NoDup_filter, seq_NoDup|]. split.
  - intros x. unfold truth_pool. rewrite filter_In, in_seq, andb_true_iff, !negb_true_iff,
      Nat.eqb_neq. split.
    + intros (Hx & He & Hne). split; [lia|]. split; [|exact Hne].
      intros Hin. assert (existsb (Nat.eqb x) liars = true)
        by (apply existsb_exists; exists x; split; [exact Hin | apply Nat.eqb_refl]).
      congruence.
    + intros (Hx & Hin & Hne). split; [lia|]. split; [|exact Hne].
      destruct (existsb (Nat.eqb x) liars) eqn:E; [|reflexivity].
      apply existsb_exists in E. destruct E as (y & Hy & Hxy). apply Nat.eqb_eq in Hxy.
      subst. contradiction.
  - intros Hip Hnd Hl. unfold truth_pool.
    rewrite (filter_ext _ (fun k => negb (existsb (Nat.eqb k) (ip :: liars))))
      by (intros k; simpl; rewrite negb_orb, andb_comm; reflexivity).
    rewrite pool_length.
    + simpl. lia.
    + constructor; [intros Hin; apply (proj2 (Hl ip Hin)); reflexivity | exact Hnd].
    + intros x [<-|Hx]; [exact Hip | apply Hl, Hx].
Qed.

Lemma choice_wo_spec (pop : list nat) (m : nat) (idx : list nat) :
  NoDup pop -> valid_sel (length pop) m idx ->
  exists r, choice_wo pop m idx = Some r /\
    NoDup r /\ (forall x, In x r -> In x pop) /\ length r = m.
Proof.
  intros Hpop (Hlen & Hnd & Hlt).
  assert (Hm : m <= length pop).
  { rewrite <- Hlen, <- (length_seq (length pop) 0). apply NoDup_incl_length; [exact Hnd|].
    intros x Hx. apply in_seq. specialize (Hlt x Hx). lia. }
  exists (map (fun k => nth k pop 0) idx). unfold choice_wo.
  destruct (Nat.ltb_spec (length pop) m) as [Hc|_]; [lia|].
  split; [reflexivity|]. split; [|split].
  - clear Hlen Hm. induction idx as [|x idx IH]; simpl; [constructor|].
    inversion Hnd as [|? ? Hx Hnd']; subst. constructor.
    + intros Hin. apply in_map_iff in Hin. destruct Hin as (y & Hxy & Hy).
      assert (y = x) by (apply (proj1 (NoDup_nth pop 0) Hpop);
        [apply Hlt; right; exact Hy | apply Hlt; left; reflexivity | exact Hxy]).
      subst. contradiction.
    + apply IH; [exact Hnd' | intros y Hy; apply Hlt; right; exact Hy].
  - intros x Hx. apply in_map_iff in Hx. destruct Hx as (k & <- & Hk). apply nth_In, Hlt, Hk.
  - rewrite length_map. exact Hlen.
Qed.

(** The roles drawn by [run_rumors]. *)
Lemma roles_spec (n ip liarnum truthnum : nat) (liar_idx truth_idx : list nat) :
  ip < n -> valid_sel (n - 1) liarnum liar_idx ->
  valid_sel (n - 1 - liarnum) truthnum truth_idx ->
  exists liars truths,
    choice_wo (liar_pool n ip) liarnum liar_idx = Some liars /\
    choice_wo (truth_pool n ip liars) truthnum truth_idx = Some truths /\
    NoDup (ip :: liars ++ truths) /\ (forall x, In x (liars ++ truths) -> x < n) /\
    length liars = liarnum /\ length truths = truthnum.
Proof.
  intros Hip Hl Ht.
  destruct (liar_pool_spec n ip) as (Lnd & Lin & Llen).
  rewrite <- (Llen Hip) in Hl.
  destruct (choice_wo_spec _ _ _ Lnd Hl) as (liars & Hc1 & Hnd1 & Hin1 & Hlen1).
  destruct (truth_pool_spec n ip liars) as (Tnd & Tin & Tlen).
  assert (Hl' : forall x, In x liars -> x < n /\ x <> ip) by (intros x Hx; apply Lin, Hin1, Hx).
  rewrite <- Hlen1, <- (Tlen Hip Hnd1 Hl') in Ht.
  destruct (choice_wo_spec _ _ _ Tnd Ht) as (truths & Hc2 & Hnd2 & Hin2 & Hlen2).
  exists liars, truths. split; [exact Hc1|]. split; [exact Hc2|].
  split; [|split; [|split; [exact Hlen1 | exact Hlen2]]].
  - constructor.
    + intros Hin. apply in_app_or in Hin. destruct Hin as [Hin|Hin].
      * apply (proj2 (Hl' ip Hin)). reflexivity.
      * apply Hin2, Tin in Hin. destruct Hin as (_ & _ & Hne). apply Hne. reflexivity.
    + apply NoDup_app; [exact Hnd1 | exact Hnd2|].
      intros x Hx Hx'. apply Hin2, Tin in Hx'. destruct Hx' as (_ & Hn & _). contradiction.
  - intros x Hx. apply in_app_or in Hx. destruct Hx as [Hx|Hx].
    + apply Hl', Hx.
    + apply Hin2, Tin in Hx. apply Hx.
Qed.

Lemma roles_error (cfg : config) (ip num_rounds liarnum truthnum : nat)
  (liar_idx truth_idx : list nat) (dr : nat -> nat -> node_draws)
  (sd : nat -> nat -> nat -> nat) :
  ip < n_nodes cfg ->
  (liarnum <= n_nodes cfg - 1 -> valid_sel (n_nodes cfg - 1) liarnum liar_idx) ->
  n_nodes cfg <= liarnum + truthnum ->
  run_rumors ip cfg num_rounds liarnum truthnum liar_idx truth_idx dr sd = None.
Proof.
  intros Hip Hl Hsum. unfold run_rumors.
  destruct (liar_pool_spec (n_nodes cfg) ip) as (Lnd & Lin & Llen).
  destruct (Nat.le_gt_cases liarnum (n_nodes cfg - 1)) as [Hle|Hgt].
  - specialize (Hl Hle). rewrite <- (Llen Hip) in Hl.
    destruct (choice_wo_spec _ _ _ Lnd Hl) as (liars & -> & Hnd1 & Hin1 & Hlen1).
    destruct (truth_pool_spec (n_nodes cfg) ip liars) as (_ & _ & Tlen).
    assert (Hl' : forall x, In x liars -> x < n_nodes cfg /\ x <> ip)
      by (intros x Hx; apply Lin, Hin1, Hx).
    unfold choice_wo at 1. rewrite (Tlen Hip Hnd1 Hl'), Hlen1.
    destruct (Nat.ltb_spec (n_nodes cfg - 1 - liarnum) truthnum); [reflexivity | lia].
  - unfold choice_wo at 1. rewrite (Llen Hip).
    destruct (Nat.ltb_spec (n_nodes cfg - 1) liarnum); [reflexivity | lia].
Qed.

(** ** FIFO memory *)

Lemma insert_fifo (Lc : Z) (us : list code) (c : counter) (l : list code) :
  (0 <= Lc)%Z -> length l <= Z.to_nat Lc ->
  snd (fold_left (insert Lc) us (c, l)) = skipn (length (l ++ us) - Z.to_nat Lc) (l ++ us).
Proof.
  intros HL. revert c l. induction us as [|u us IH]; intros c l Hl; cbn [fold_left].
  - rewrite app_nil_r. replace (length l - Z.to_nat Lc) with 0 by lia. reflexivity.
  - replace (l ++ u :: us) with ((l ++ [u]) ++ us) by (rewrite <- app_assoc; reflexivity).
    unfold insert at 2. cbn [fst snd].
    destruct (Z.ltb_spec Lc (Z.of_nat (length (l ++ [u])))) as [Hlt|Hge].
    + assert (Hlen : length (l ++ [u]) = S (Z.to_nat Lc)) by (rewrite length_app in *; simpl in *; lia).
      destruct (l ++ [u]) as [|first rest] eqn:E; [discriminate|].
      cbn [length] in Hlen. injection Hlen as Hlen.
      rewrite IH by lia. cbn [app length]. rewrite length_app, Hlen.
      replace (S (Z.to_nat Lc + length us) - Z.to_nat Lc) with (S (length us)) by lia.
      replace (Z.to_nat Lc + length us - Z.to_nat Lc) with (length us) by lia.
      reflexivity.
    + rewrite IH by (rewrite length_app in *; simpl in *; lia). reflexivity.
Qed.

(** ** Generated graphs are simple *)

Lemma seed_simple (m0 : nat) (draws : list (mat Q)) (E : mat nat) :
  seed_phase m0 draws = Some E ->
  forall a b, a < m0 -> b < m0 -> (E a b = 0 \/ E a b = 1) /\ E a a = 0.
Proof.
  induction draws as [|d ds IH]; simpl; [discriminate|].
  rewrite seed_rows_eq. simpl. destruct (existsb _ _); [exact IH|].
  intros Heq; injection Heq as <-. intros a b Ha Hb. unfold zd, threshold.
  rewrite Nat.eqb_refl. replace (a <? m0) with true by (symmetry; apply Nat.ltb_lt; exact Ha).
  split; [|reflexivity].
  destruct ((a =? b) && true); [left; reflexivity|].
  destruct (Qle_bool _ _); [left | right]; reflexivity.
Qed.

Lemma growth_simple (E : mat nat) (n m : nat) (sels : nat -> list nat) (t T : nat)
  (E' : mat nat) (n' : nat) :
  growth E n m sels t T = Some (E', n') ->
  (forall a b, a < n -> b < n -> (E a b = 0 \/ E a b = 1) /\ E a a = 0) ->
  forall a b, a < n' -> b < n' -> (E' a b = 0 \/ E' a b = 1) /\ E' a a = 0.
Proof.
  revert E n t. induction T as [|T IH]; intros E n t; simpl.
  - intros Heq; injection Heq as <- <-. auto.
  - unfold growth_step. destruct (length _ <? m); [discriminate|].
    intros Hg HE. apply (IH _ _ _ Hg). intros a b Ha Hb. unfold grow.
    assert (Hc : forall k, (if existsb (Nat.eqb k) (sels t) then 1 else 0) = 0 \/
                           (if existsb (Nat.eqb k) (sels t) then 1 else 0) = 1)
      by (intros k; destruct (existsb _ _); auto).
    destruct (Nat.ltb_spec a n) as [Ha'|Ha'], (Nat.ltb_spec b n) as [Hb'|Hb'];
      cbn [andb]; rewrite ?Nat.eqb_refl; cbn [andb].
    + apply HE; assumption.
    + replace (b =? n) with true by (symmetry; apply Nat.eqb_eq; lia).
      split; [apply Hc | exact (proj2 (HE a a Ha' Ha'))].
    + replace (a =? n) with true by (symmetry; apply Nat.eqb_eq; lia).
      split; [apply Hc|]. reflexivity.
    + replace (a =? n) with true by (symmetry; apply Nat.eqb_eq; lia).
      replace (b =? n) with true by (symmetry; apply Nat.eqb_eq; lia). cbn [andb].
      split; [left; reflexivity | reflexivity].
Qed.

Lemma generate_simple (beta : R) (T m0 m : nat) (draws : list (mat Q))
  (sels : nat -> list nat) (M : mat R) (E : mat nat) :
  generate_new_graph beta T m0 m draws sels = Some (M, E) ->
  forall a b, a < m0 + T -> b < m0 + T ->
    (E a b = 0 \/ E a b = 1) /\ E a a = 0 /\ E a b = E b a.
Proof.
  intros Hgen a b Ha Hb.
  destruct (generate_parts _ _ _ _ _ _ _ _ Hgen) as (E0 & Hs & Hg & _).
  destruct (growth_simple _ _ _ _ _ _ _ _ Hg (seed_simple _ _ _ Hs) a b Ha Hb) as [H1 H2].
  split; [exact H1|]. split; [exact H2|]. apply (generate_sym _ _ _ _ _ _ _ _ Hgen).
Qed.

(** ** [generate_graph] *)

Lemma gg_in (E : mat nat) (n a b : nat) :
  In (a, b) (snd (generate_graph E n)) <-> a <= b /\ b < n /\ E a b = 1.
Proof.
  unfold generate_graph. cbn [snd]. rewrite in_flat_map. split.
  - intros (i & Hi & Hin). apply in_map_iff in Hin. destruct Hin as (j & Hij & Hj).
    injection Hij as <- <-. apply filter_In in Hj. destruct Hj as [Hj He].
    apply in_seq in Hi, Hj. apply Nat.eqb_eq in He. lia.
  - intros (Hab & Hb & He). exists a. split; [apply in_seq; lia|].
    apply in_map_iff. exists b. split; [reflexivity|]. apply filter_In.
    split; [apply in_seq; lia | apply Nat.eqb_eq, He].
Qed.

Lemma gg_nodup (E : mat nat) (n : nat) : NoDup (snd (generate_graph E n)).
Proof.
  unfold generate_graph. cbn [snd].
  assert (Hrow : forall (i : nat) (l : list nat), NoDup l -> NoDup (map (fun j => (i, j)) l)).
  { intros i l Hl. induction Hl as [|x l Hx Hl IH]; simpl; constructor; [|exact IH].
    intros Hin. apply in_map_iff in Hin. destruct Hin as (y & Hy & Hyl).
    injection Hy as ->. contradiction. }
  assert (Hgen : forall len s, NoDup (flat_map (fun i => map (fun j => (i, j))
                  (filter (fun j => E i j =? 1) (seq i (n - i)))) (seq s len))).
  2: apply Hgen.
  intros len. induction len as [|len IH]; intros s; [constructor|].
  cbn [seq flat_map]. apply NoDup_app.
  - apply Hrow, NoDup_filter, seq_NoDup.
  - apply IH.
  - intros [x y] Hx Hx'. apply in_map_iff in Hx. destruct Hx as (j & Hj & _).
    injection Hj as <- _. apply in_flat_map in Hx'. destruct Hx' as (i & Hi & Hin).
    apply in_map_iff in Hin. destruct Hin as (j' & Hj' & _). injection Hj' as -> _.
    apply in_seq in Hi. lia.
Qed.

Lemma NoDup_map_on {A B} (f : A -> B) (l : list A) :
  (forall x y, In x l -> In y l -> f x = f y -> x = y) -> NoDup l -> NoDup (map f l).
Proof.
  intros Hinj Hl. induction Hl as [|x l Hx Hl IH]; simpl; constructor.
  - intros Hin. apply in_map_iff in Hin. destruct Hin as (y & Hy & Hyl).
    assert (y = x) by (apply Hinj; [right; exact Hyl | left; reflexivity | exact Hy]).
    subst. contradiction.
  - apply IH. intros a b Ha Hb. apply Hinj; right; assumption.
Qed.

(** The degree of a node in the [networkx] graph is its row sum. *)
Lemma gg_degree (E : mat nat) (n a : nat) :
  (forall x y, x < n -> y < n -> (E x y = 0 \/ E x y = 1) /\ E x x = 0 /\ E x y = E y x) ->
  a < n ->
  length (filter (fun e => (fst e =? a) || (snd e =? a)) (snd (generate_graph E n))) =
  row_sum E n a.
Proof.
  intros HE Ha.
  set (G := map (fun j => if j <? a then (j, a) else (a, j))
              (filter (fun j => E a j =? 1) (seq 0 n))).
  assert (Hdiag : E a a = 0) by apply (HE a a Ha Ha).
  assert (HP : Permutation (filter (fun e => (fst e =? a) || (snd e =? a))
                              (snd (generate_graph E n))) G).
  { apply NoDup_Permutation.
    - apply NoDup_filter, gg_nodup.
    - apply NoDup_map_on; [|apply NoDup_filter, seq_NoDup].
      intros x y Hx Hy. apply filter_In in Hx, Hy.
      destruct Hx as [Hx Hex], Hy as [Hy Hey]. apply Nat.eqb_eq in Hex, Hey.
      destruct (Nat.ltb_spec x a), (Nat.ltb_spec y a); intros Hxy; injection Hxy; intros;
        subst; try reflexivity; lia.
    - intros [x y]. rewrite filter_In, gg_in, orb_true_iff, !Nat.eqb_eq. cbn [fst snd].
      unfold G. rewrite in_map_iff. split.
      + intros ((Hxy & Hy & He) & [->| ->]).
        * exists y. split; [destruct (Nat.ltb_spec y a); [lia | reflexivity]|].
          apply filter_In. split; [apply in_seq; lia | apply Nat.eqb_eq, He].
        * assert (x <> a) by (intros ->; congruence).
          exists x. split; [destruct (Nat.ltb_spec x a); [reflexivity | lia]|].
          apply filter_In. split; [apply in_seq; lia|].
          apply Nat.eqb_eq. rewrite (proj2 (proj2 (HE a x Ha ltac:(lia)))). exact He.
      + intros (j & Hj & Hin). apply filter_In in Hin. destruct Hin as [Hjn Hej].
        apply in_seq in Hjn. apply Nat.eqb_eq in Hej.
        destruct (Nat.ltb_spec j a); injection Hj as E1 E2; subst x y.
        * split; [|right; reflexivity]. split; [lia|]. split; [lia|].
          rewrite (proj2 (proj2 (HE j a ltac:(lia) Ha))). exact Hej.
        * split; [|left; reflexivity]. split; [lia|]. split; [lia | exact Hej]. }
  rewrite (Permutation_length HP). unfold G. rewrite length_map.
  rewrite <- (row_sum_indicator (fun j => E a j =? 1) n a). symmetry. apply row_sum_ext. intros b Hb.
  destruct (proj1 (HE a b Ha Hb)) as [-> | ->]; reflexivity.
Qed.

(** ** [str2col] on five-bit codes *)

Lemma palette_codes :
  forallb (fun r => match sum_digits r with
                    | Some num => (num <=? 5) &&
                        match palette num with
                        | Some col => negb (String.eqb col "#ffffff")
                        | None => false
                        end
                    | None => false
                    end) all_codes = true.
Proof. vm_compute. reflexivity. Qed.

Lemma str2col_spec (c : counter) (l : list code) (pick : nat -> nat) :
  wf c l -> Forall (fun s => is_code s = true) l -> (forall b, 0 < b -> pick b < b) ->
  exists col, str2col c pick = Some (Some col) /\
    (col = "#ffffff"%string <-> l = []).
Proof.
  intros Hw Hl Hp. unfold str2col.
  pose proof (keys_nonempty c l Hw) as Hk.
  destruct (ckeys c) as [|k ks] eqn:Ek.
  - exists "#ffffff"%string. split; [reflexivity|]. destruct l; [tauto | discriminate].
  - assert (Hne : ckeys c <> []) by (rewrite Ek; discriminate).
    destruct (majority_code c l pick Hw Hl Hp Hne) as [_ Hc].
    pose proof palette_codes as Hpal. rewrite forallb_forall in Hpal.
    specialize (Hpal _ (is_code_cases _ Hc)).
    destruct (sum_digits (get_mc c pick)) as [num|]; [|discriminate].
    destruct (palette num) as [col|]; [|rewrite andb_false_r in Hpal; discriminate].
    exists col. split; [reflexivity|]. apply andb_prop in Hpal. destruct Hpal as [_ Hpal].
    split; [intros ->; discriminate|]. intros ->. discriminate.
Qed.

(** ** Mutation probability *)

Local Open Scope R_scope.

Lemma mutation_prob_unit (cfg : config) (h : R) : 0 < mutation_prob cfg h < 1.
Proof.
  unfold mutation_prob. pose proof (exp_pos ((Hmax cfg - h) * K cfg / Hmax cfg)) as He.
  split.
  - unfold Rdiv. rewrite Rmult_1_l. apply Rinv_0_lt_compat. lra.
  - unfold Rdiv. rewrite Rmult_1_l. rewrite <- Rinv_1 at 2. apply Rinv_lt_contravar; lra.
Qed.

Lemma mutation_prob_half (cfg : config) : mutation_prob cfg (Hmax cfg) = 1 / 2.
Proof.
  unfold mutation_prob. replace ((Hmax cfg - Hmax cfg) * K cfg / Hmax cfg) with 0
    by (unfold Rdiv; ring).
  rewrite exp_0. reflexivity.
Qed.

Lemma mutation_prob_incr (cfg : config) (h1 h2 : R) :
  0 < K cfg -> 0 < Hmax cfg -> h1 < h2 -> mutation_prob cfg h1 < mutation_prob cfg h2.
Proof.
  intros HK HH Hh. unfold mutation_prob.
  assert (Hx : (Hmax cfg - h2) * K cfg / Hmax cfg < (Hmax cfg - h1) * K cfg / Hmax cfg).
  { unfold Rdiv. apply Rmult_lt_compat_r; [apply Rinv_0_lt_compat, HH|]. nra. }
  apply exp_increasing in Hx.
  pose proof (exp_pos ((Hmax cfg - h2) * K cfg / Hmax cfg)).
  unfold Rdiv. rewrite !Rmult_1_l. apply Rinv_lt_contravar; [nra | lra].
Qed.

Local Close Scope R_scope.

Lemma nth_map_lt {A B} (f : A -> B) (l : list A) (t : nat) (d : A) (db : B) :
  t < length l -> nth t (map f l) db = f (nth t l d).
Proof.
  intros H. rewrite (nth_indep _ db (f d)) by (rewrite length_map; exact H). apply map_nth.
Qed.

Lemma round_stats_nodes (cfg : config) (st : state) (sd : nat -> nat -> nat) e :
  round_stats cfg st sd = Some e -> 0 < n_nodes cfg.
Proof. unfold round_stats. destruct (n_nodes cfg); [discriminate | intros _; lia]. Qed.

Lemma dr_plain_ok : forall it i, valid_draws (dr_plain it i) /\ d_bitflip (dr_plain it i) < 5.
Proof.
  intros it i. split; [|simpl; lia]. split; simpl; [lia|].
  intros [|p ps] Hps; [congruence | simpl; lia].
Qed.

Lemma run_plain : exists s, run_rumors 0 cfg_L1 2 0 0 [] [] dr_plain sd_plain = Some s.
Proof.
  destruct (run_loop_some cfg_L1 [] [] dr_plain sd_plain 0 2 (init_state [] [] 0) empty_stats
              ltac:(simpl; lia)) as (s & Hs & _).
  exists s. unfold run_rumors.
  replace (choice_wo (liar_pool (n_nodes cfg_L1) 0) 0 []) with (Some (@nil nat))
    by reflexivity.
  replace (choice_wo (truth_pool (n_nodes cfg_L1) 0 []) 0 []) with (Some (@nil nat))
    by reflexivity.
  rewrite Hs. reflexivity.
Qed.

End ExtraFacts.

(** * Claims about [generate_new_graph] *)

Import GraphFacts.

Lemma split_M02 :
  exists M, generate_new_graph 1 0 5 2 [draw_split] (fun _ => []) = Some (M, E_split)
    /\ E_split 0 2 = 0 /\ M 0 2 = 2%R.
Proof.
  destruct gen_split as (M & HM & Hg). exists M. split; [exact Hg|].
  split; [reflexivity|].
  pose proof (calc_eta_spec _ _ _ _ HM 0 2 ltac:(lia) ltac:(lia)) as H02.
  simpl in H02. rewrite split_eta_02 in H02. injection H02 as <-. reflexivity.
Qed.

(** C1 (counterexample).  On the seed graph 0-1, 1-2, 1-3, 2-3, 3-4 with
    beta = 1, the entry [eta[1,0]] of the edge (0,1) is not the formula with
    the roles swapped ([deg(0)/max deg over N(1)] = 1/3): it is the copy of
    [eta[0,1]] = 1. *)
Lemma C1_eta_not_independent :
  exists M E, generate_new_graph 1 0 5 2 [draw_path] (fun _ => []) = Some (M, E) /\
    E 0 1 = 1 /\ eta_entry 1 E 5 1 0 <> Some (M 1 0).
Proof.
  destruct gen_path as (M & HM & Hg). exists M, E_path.
  split; [exact Hg|]. split; [reflexivity|].
  pose proof (calc_eta_spec _ _ _ _ HM 1 0 ltac:(lia) ltac:(lia)) as H10.
  simpl in H10. rewrite path_eta_01 in H10. injection H10 as H10.
  rewrite path_eta_10, <- H10. intros H; injection H as H. lra.
Qed.

(** C1 (amended).  For every pair [i <= j] (edge or not) [eta[i,j]] is
    [deg(j)^beta / max {deg(k)^beta | k neighbour of i}], and [eta[j,i]] is
    set equal to [eta[i,j]]. *)
Theorem C1_eta_formula_symmetric (beta : R) (T m0 m : nat)
  (draws : list (mat Q)) (sels : nat -> list nat) (M : mat R) (E : mat nat) :
  generate_new_graph beta T m0 m draws sels = Some (M, E) ->
  forall i j, i <= j -> j < m0 + T ->
  eta_entry beta E (m0 + T) i j = Some (M i j) /\ M j i = M i j.
Proof.
  intros Hgen i j Hij Hj.
  destruct (generate_parts _ _ _ _ _ _ _ _ Hgen) as (E0 & _ & _ & Hc).
  pose proof (calc_eta_spec _ _ _ _ Hc i j ltac:(lia) Hj) as Hi.
  pose proof (calc_eta_spec _ _ _ _ Hc j i Hj ltac:(lia)) as Hji.
  rewrite Nat.min_l, Nat.max_r in Hi by exact Hij.
  rewrite Nat.min_r, Nat.max_l in Hji by exact Hij.
  split; [exact Hi|]. rewrite Hi in Hji. injection Hji as ->. reflexivity.
Qed.

Lemma C1_witness :
  exists M E, generate_new_graph 1 0 5 2 [draw_path] (fun _ => []) = Some (M, E) /\
    eta_entry 1 E (5 + 0) 0 1 = Some (M 0 1) /\ M 1 0 = M 0 1.
Proof.
  destruct gen_path as (M & _ & Hg). exists M, E_path. split; [exact Hg|].
  apply (C1_eta_formula_symmetric 1 0 5 2 [draw_path] (fun _ => []) M E_path Hg 0 1);
    lia.
Defined.

(** C2 (counterexample).  On the seed graph 0-1 plus the triangle 2-3-4,
    (0,2) is not an edge but [eta[0,2]] = 2, not 0. *)
Lemma C2_eta_nonzero_off_edge :
  exists M E, generate_new_graph 1 0 5 2 [draw_split] (fun _ => []) = Some (M, E) /\
    E 0 2 = 0 /\ M 0 2 <> 0%R.
Proof.
  destruct split_M02 as (M & Hg & He & HM). exists M, E_split.
  split; [exact Hg|]. split; [exact He|]. rewrite HM. lra.
Qed.

(** C2 (amended).  Every entry [eta[a,b]] with [a, b < n] is computed and
    positive, whether or not [adjacency[a][b] == 1]. *)
Theorem C2_eta_positive_everywhere (beta : R) (T m0 m : nat)
  (draws : list (mat Q)) (sels : nat -> list nat) (M : mat R) (E : mat nat) :
  generate_new_graph beta T m0 m draws sels = Some (M, E) ->
  forall a b, a < m0 + T -> b < m0 + T -> (0 < M a b)%R.
Proof.
  intros Hgen a b Ha Hb.
  destruct (generate_parts _ _ _ _ _ _ _ _ Hgen) as (E0 & _ & _ & Hc).
  exact (eta_entry_pos _ _ _ _ _ _ (calc_eta_spec _ _ _ _ Hc a b Ha Hb)).
Qed.

Lemma C2_witness :
  exists M E, generate_new_graph 1 0 5 2 [draw_split] (fun _ => []) = Some (M, E) /\
    E 0 2 = 0 /\ (0 < M 0%nat 2%nat)%R.
Proof.
  destruct gen_split as (M & _ & Hg). exists M, E_split.
  split; [exact Hg|]. split; [reflexivity|].
  apply (C2_eta_positive_everywhere 1 0 5 2 [draw_split] (fun _ => []) M E_split Hg);
    lia.
Defined.

(** C3 (counterexample).  On the seed graph 0-1 plus the triangle 2-3-4
    with beta = 1, the non-edge entry [eta[0,2]] is 2 > 1. *)
Lemma C3_eta_exceeds_one :
  exists M E, generate_new_graph 1 0 5 2 [draw_split] (fun _ => []) = Some (M, E) /\
    E 0 2 = 0 /\ (1 < M 0%nat 2%nat)%R.
Proof.
  destruct split_M02 as (M & Hg & He & HM). exists M, E_split.
  split; [exact Hg|]. split; [exact He|]. rewrite HM. lra.
Qed.

(** C3 (amended).  For any real beta and any growth step count, every entry
    [eta[a,b]] at an edge ([adjacency[a][b] <> 0]) lies in (0,1]. *)
Theorem C3_eta_edge_in_unit (beta : R) (T m0 m : nat)
  (draws : list (mat Q)) (sels : nat -> list nat) (M : mat R) (E : mat nat) :
  generate_new_graph beta T m0 m draws sels = Some (M, E) ->
  forall a b, a < m0 + T -> b < m0 + T -> E a b <> 0 ->
  (0 < M a b /\ M a b <= 1)%R.
Proof.
  intros Hgen a b Ha Hb Hab.
  pose proof (generate_sym _ _ _ _ _ _ _ _ Hgen) as Hsym.
  destruct (generate_parts _ _ _ _ _ _ _ _ Hgen) as (E0 & _ & _ & Hc).
  pose proof (calc_eta_spec _ _ _ _ Hc a b Ha Hb) as He.
  split; [exact (eta_entry_pos _ _ _ _ _ _ He)|].
  refine (eta_entry_le_1 _ _ _ _ _ _ _ He).
  apply flatnonzero_spec.
  destruct (Nat.le_ge_cases a b) as [Hle|Hge].
  - rewrite Nat.min_l, Nat.max_r by exact Hle. split; [exact Hb | exact Hab].
  - rewrite Nat.min_r, Nat.max_l by exact Hge. split; [exact Ha|].
    rewrite Hsym. exact Hab.
Qed.

Lemma C3_witness :
  exists M E, generate_new_graph 1 0 5 2 [draw_path] (fun _ => []) = Some (M, E) /\
    (0 < M 1%nat 0%nat /\ M 1%nat 0%nat <= 1)%R.
Proof.
  destruct gen_path as (M & _ & Hg). exists M, E_path. split; [exact Hg|].
  apply (C3_eta_edge_in_unit 1 0 5 2 [draw_path] (fun _ => []) M E_path Hg 1 0);
    [lia | lia | vm_compute; discriminate].
Defined.

(** C6.  With [m >= 1] (default 2) and the samples of the growth phase
    being [m] distinct existing nodes, every node of the returned graph has
    degree at least 1, every node added at step [t] has degree at least [m],
    for any beta and any [T]. *)
Theorem C6_no_isolated_node (beta : R) (T m0 m : nat)
  (draws : list (mat Q)) (sels : nat -> list nat) (M : mat R) (E : mat nat) :
  1 <= m ->
  (forall t, t < T -> valid_sel (m0 + t) m (sels t)) ->
  generate_new_graph beta T m0 m draws sels = Some (M, E) ->
  (forall i, i < m0 + T -> 1 <= row_sum E (m0 + T) i) /\
  (forall t, t < T -> m <= row_sum E (m0 + T) (m0 + t)).
Proof.
  intros Hm Hv Hgen.
  destruct (generate_graph_ok _ _ _ _ _ _ _ _ Hm Hv Hgen) as (_ & H1 & H2).
  split; [exact H1 | exact H2].
Qed.

Lemma C6_witness :
  exists M E, generate_new_graph 1 1 5 2 [draw_split] (fun _ => [0; 2]) = Some (M, E) /\
    (forall i, i < 6 -> 1 <= row_sum E 6 i).
Proof.
  destruct gen_grow as (M & Hg). exists M, E_grow. split; [exact Hg|].
  apply (C6_no_isolated_node 1 1 5 2 [draw_split] (fun _ => [0; 2]) M E_grow);
    [lia | | exact Hg].
  intros t Ht. replace t with 0 by lia.
  split; [reflexivity|]. split; [repeat constructor; simpl; lia|].
  intros x [<-|[<-|[]]]; lia.
Defined.

(** * Claims about the round loop of [run_rumors] *)

Import MemFacts RunFacts.

(** C4.  A liar (a node of [liars], distinct from [init_person] and from
    the truth-tellers) holds exactly one [11111] and nothing else after any
    number [k] of rounds, so its majority is [11111] whatever the tie draw,
    and its entropy slot stays 0; a truth-teller likewise holds exactly one
    [00000]. *)
Theorem C4_special_nodes_fixed (cfg : config) (liars truths : list nat)
  (init_person : nat) (dr : nat -> nat -> node_draws) (itnum k : nat) :
  NoDup liars -> NoDup truths ->
  (forall l, In l liars -> ~ In l truths -> l <> init_person ->
   let st := states cfg liars truths dr itnum k (init_state liars truths init_person) in
   mem_dict st l = [("11111", 1%Z)]%string /\ mem_list st l = ["11111"]%string /\
   Hs st l = 0%R /\ largest_vals (mem_dict st l) = ["11111"]%string /\
   (forall pick, pick 1 < 1 \/ pick 1 = 0 -> get_mc (mem_dict st l) pick = "11111"%string)) /\
  (forall t, In t truths -> ~ In t liars -> t <> init_person ->
   let st := states cfg liars truths dr itnum k (init_state liars truths init_person) in
   mem_dict st t = [("00000", 1%Z)]%string /\ mem_list st t = ["00000"]%string /\
   Hs st t = 0%R /\ largest_vals (mem_dict st t) = ["00000"]%string /\
   (forall pick, pick 1 < 1 \/ pick 1 = 0 -> get_mc (mem_dict st t) pick = "00000"%string)).
Proof.
  intros HndL HndT. split.
  - intros l Hl HlT Hli st.
    destruct (init_state_liar liars truths init_person l HndL Hl HlT Hli) as (I1 & I2 & I3).
    destruct (special_states cfg liars truths dr itnum k
                (init_state liars truths init_person) l (is_special_liar _ _ _ Hl))
      as (S1 & S2 & S3).
    unfold st. rewrite S1, S2, S3, I1, I2, I3.
    split; [reflexivity|]. split; [reflexivity|]. split; [reflexivity|].
    split; [reflexivity|]. intros pick Hp. unfold get_mc. simpl.
    destruct Hp as [Hp|Hp]; [replace (pick 1) with 0 by lia|rewrite Hp]; reflexivity.
  - intros t Ht HtL Hti st.
    destruct (init_state_truth liars truths init_person t HndT Ht HtL Hti) as (I1 & I2 & I3).
    destruct (special_states cfg liars truths dr itnum k
                (init_state liars truths init_person) t (is_special_truth _ _ _ Ht))
      as (S1 & S2 & S3).
    unfold st. rewrite S1, S2, S3, I1, I2, I3.
    split; [reflexivity|]. split; [reflexivity|]. split; [reflexivity|].
    split; [reflexivity|]. intros pick Hp. unfold get_mc. simpl.
    destruct Hp as [Hp|Hp]; [replace (pick 1) with 0 by lia|rewrite Hp]; reflexivity.
Qed.

Lemma C4_witness :
  (NoDup [1] /\ NoDup (@nil nat)) /\
  mem_dict (states cfg_L0 [1] [] dr_plain 0 3 (init_state [1] [] 0)) 1 =
    [("11111", 1%Z)]%string.
Proof.
  split; [split; [repeat constructor; simpl; tauto | constructor]|].
  refine (proj1 (proj1 (C4_special_nodes_fixed cfg_L0 [1] [] 0 dr_plain 0 3 _ _) 1 _ _ _));
    [repeat constructor; simpl; tauto | constructor | left; reflexivity | simpl; tauto | lia].
Defined.

(** C5 (counterexample).  With capacity [L = 0] the seed node keeps its
    seeded code through a whole round, so its memory holds one code, more
    than [L]. *)
Lemma C5_capacity_exceeded :
  L cfg_L0 = 0%Z /\
  length (mem_list (states cfg_L0 [] [] dr_plain 0 1 (init_state [] [] 0)) 0) = 1.
Proof. split; reflexivity. Qed.

(** C5 (amended).  For a capacity [L >= 1], distinct role nodes and draws
    in range, after any number of rounds every node memory has unique keys
    and positive counts, its counts are the occurrence counts of its
    sequence, their sum is the sequence length, and that length is
    [min(inserted, L)] where [inserted] counts the seeded codes and all
    queued insertions so far; each insertion with FIFO eviction and each
    in-place mutation of a held code preserves this agreement and the bound
    [L]. *)
Theorem C5_memory_invariant (cfg : config) (liars truths : list nat) (init_person : nat)
  (dr : nat -> nat -> node_draws) :
  (1 <= L cfg)%Z -> NoDup (init_person :: liars ++ truths) ->
  (forall it i, valid_draws (dr it i)) ->
  (forall itnum k i,
     let st := states cfg liars truths dr itnum k (init_state liars truths init_person) in
     wf (mem_dict st i) (mem_list st i) /\
     csum (mem_dict st i) = Z.of_nat (length (mem_list st i)) /\
     Z.of_nat (length (mem_list st i)) =
       Z.min (Z.of_nat (seeded liars truths init_person i +
                        inserted cfg liars truths dr itnum k
                          (init_state liars truths init_person) i)) (L cfg) /\
     (Z.of_nat (length (mem_list st i)) <= L cfg)%Z) /\
  (forall c l up, wf c l -> (Z.of_nat (length l) <= L cfg)%Z ->
     wf (fst (insert (L cfg) (c, l) up)) (snd (insert (L cfg) (c, l) up)) /\
     (Z.of_nat (length (snd (insert (L cfg) (c, l) up))) <= L cfg)%Z) /\
  (forall c l old new, wf c l -> In old l ->
     wf (fst (mutate_held c l old new)) (snd (mutate_held c l old new)) /\
     length (snd (mutate_held c l old new)) = length l).
Proof.
  intros HL Hnd Hd. split; [|split].
  - intros itnum k i st.
    pose proof (states_inv cfg liars truths dr itnum k (init_state liars truths init_person)
                  (seeded liars truths init_person) HL Hd
                  (init_state_inv liars truths init_person (L cfg) HL Hnd) i) as [Hw Hl].
    unfold st. split; [exact Hw|]. split; [apply Hw|]. split; [exact Hl|]. rewrite Hl. lia.
  - intros c l up Hw Hl. destruct (insert_spec (L cfg) c l up Hw) as [Hw' Hl'].
    split; [exact Hw'|]. rewrite Hl'.
    destruct (Z.ltb_spec (L cfg) (Z.of_nat (length l) + 1)); lia.
  - intros c l old new Hw Hin.
    destruct (mutate_held_spec c l old new Hw (proj2 (wf_in c l old Hw) Hin))
      as (Hw' & _ & _ & pre & post & E & _ & E').
    split; [exact Hw'|]. rewrite E', E, !length_app. reflexivity.
Qed.

Lemma C5_witness :
  ((1 <= L cfg_L1)%Z /\ NoDup [0] /\ (forall it i, valid_draws (dr_plain it i))) /\
  length (mem_list (states cfg_L1 [] [] dr_plain 0 2 (init_state [] [] 0)) 1) <= 1.
Proof.
  assert (Hd : forall it i, valid_draws (dr_plain it i)).
  { intros it i. split; simpl; [lia|]. intros [|p ps] Hps; [congruence | simpl; lia]. }
  split; [split; [vm_compute; discriminate | split; [repeat constructor; simpl; tauto | exact Hd]]|].
  pose proof (proj1 (C5_memory_invariant cfg_L1 [] [] 0 dr_plain ltac:(vm_compute; discriminate)
                       ltac:(repeat constructor; simpl; tauto) Hd) 0 2 1) as H.
  cbv zeta in H. destruct H as (_ & _ & _ & H). change (L cfg_L1) with 1%Z in H. lia.
Defined.

(** C7.  For a non-empty Counter (keys are unique), [get_mc] returns a
    code of largest count for any draw in range; and, the draw being
    uniform over the [len(largest_vals)] indices, each code tied at the
    largest count is returned for exactly one index while no other code is
    ever returned: the choice is uniform among exactly the tied codes. *)
Theorem C7_get_mc_uniform_max (c : counter) :
  c <> [] -> NoDup (ckeys c) ->
  (forall pick, (forall b, 0 < b -> pick b < b) -> is_max c (get_mc c pick)) /\
  (forall k, is_max c k ->
     length (filter (fun r => String.eqb (get_mc c (fun _ => r)) k)
               (seq 0 (length (largest_vals c)))) = 1) /\
  (forall k, ~ is_max c k ->
     length (filter (fun r => String.eqb (get_mc c (fun _ => r)) k)
               (seq 0 (length (largest_vals c)))) = 0).
Proof.
  intros Hne Hnd. destruct (largest_vals_spec c Hne Hnd) as (Hndl & Hiff & _).
  split; [|split].
  - intros pick Hp. exact (get_mc_max c pick Hne Hnd Hp).
  - intros k Hk. unfold get_mc. cbv beta zeta. rewrite count_idx.
    apply Hiff in Hk. pose proof (proj1 (count_occ_In string_dec _ k) Hk).
    pose proof (proj1 (NoDup_count_occ string_dec _) Hndl k). lia.
  - intros k Hk. unfold get_mc. cbv beta zeta. rewrite count_idx.
    apply count_occ_not_In. rewrite Hiff. exact Hk.
Qed.

Lemma C7_witness :
  (c_tie <> [] /\ NoDup (ckeys c_tie)) /\
  length (filter (fun r => String.eqb (get_mc c_tie (fun _ => r)) "11111") (seq 0 2)) = 1.
Proof.
  assert (H1 : c_tie <> []) by discriminate.
  assert (H2 : NoDup (ckeys c_tie)) by (repeat constructor; simpl; intuition discriminate).
  split; [split; assumption|].
  refine (proj1 (proj2 (C7_get_mc_uniform_max c_tie H1 H2)) "11111"%string _).
  split; [simpl; tauto|]. intros k' [<-|[<-|[]]]; simpl; lia.
Defined.

(** C8.  The loop of lines 229-269 equals the synchronous round: every
    node's selection, mutation, broadcast and the acceptance decisions on
    its broadcast are computed from that node's memory as it stood at the
    start of the round ([local_result ... st]), and the queued insertions
    are applied to the memories only after all nodes have broadcast. *)
Theorem C8_round_synchronous (cfg : config) (liars truths : list nat)
  (dr : nat -> node_draws) (st : state) :
  round cfg liars truths dr st = round_sync cfg liars truths dr st.
Proof. apply round_eq_sync. Qed.

(** C9 (counterexample).  With capacity [L = 0] nothing is rejected: the
    run goes through its round and returns the statistics of one round. *)
Lemma C9_L0_accepted :
  L cfg_L0 = 0%Z /\
  option_map (fun s => length (avgH s)) (run_rumors 0 cfg_L0 1 0 0 [] [] dr_plain sd_plain)
  = Some 1.
Proof. split; reflexivity. Qed.

(** C9 (amended).  No parameter is validated up front.  For any capacity
    [L] (also [L < 1]), [init_person] a node of the graph, [Hmax > 0] and every trust entry [eta[j,i]] at an edge in
    [[0, 1]] (the conditions that exclude the errors at lines 204, 240 and
    257), the run fails only when more liars or truth-tellers are requested
    than there are candidate nodes, inside the role sampling before the
    round loop; otherwise it runs all [num_rounds] rounds and returns their
    statistics. *)
Theorem C9_no_validation (init_person : nat) (cfg : config)
  (num_rounds liarnum truthnum : nat) (liar_idx truth_idx : list nat)
  (dr : nat -> nat -> node_draws) (sd : nat -> nat -> nat -> nat) :
  init_person < n_nodes cfg -> (0 < Hmax cfg)%R ->
  (forall i j, i < n_nodes cfg -> j < n_nodes cfg -> edges cfg i j <> 0 ->
     (0 <= eta cfg j i <= 1)%R) ->
  match choice_wo (liar_pool (n_nodes cfg) init_person) liarnum liar_idx with
  | None => run_rumors init_person cfg num_rounds liarnum truthnum liar_idx truth_idx dr sd = None
  | Some liars =>
      match choice_wo (truth_pool (n_nodes cfg) init_person liars) truthnum truth_idx with
      | None =>
          run_rumors init_person cfg num_rounds liarnum truthnum liar_idx truth_idx dr sd = None
      | Some truths =>
          exists s, run_rumors init_person cfg num_rounds liarnum truthnum liar_idx
                      truth_idx dr sd = Some s /\ length (avgH s) = num_rounds
      end
  end.
Proof.
  intros Hip _ _. assert (Hn : 0 < n_nodes cfg) by lia. unfold run_rumors.
  destruct (choice_wo (liar_pool (n_nodes cfg) init_person) liarnum liar_idx) as [liars|];
    [|reflexivity].
  destruct (choice_wo (truth_pool (n_nodes cfg) init_person liars) truthnum truth_idx)
    as [truths|]; [|reflexivity].
  destruct (run_loop_some cfg liars truths dr sd 0 num_rounds
              (init_state liars truths init_person) empty_stats Hn) as (s & Hs' & Hl).
  rewrite Hs'. exists s. split; [reflexivity | exact Hl].
Qed.

Lemma C9_witness :
  (0 < n_nodes cfg_L0 /\ (0 < Hmax cfg_L0)%R /\
   (forall i j, i < n_nodes cfg_L0 -> j < n_nodes cfg_L0 -> edges cfg_L0 i j <> 0 ->
      (0 <= eta cfg_L0 j i <= 1)%R)) /\
  exists s, run_rumors 0 cfg_L0 3 0 0 [] [] dr_plain sd_plain = Some s /\ length (avgH s) = 3.
Proof.
  assert (Hn : 0 < n_nodes cfg_L0) by (simpl; lia).
  assert (HH : (0 < Hmax cfg_L0)%R) by (simpl; lra).
  assert (He : forall i j, i < n_nodes cfg_L0 -> j < n_nodes cfg_L0 -> edges cfg_L0 i j <> 0 ->
                 (0 <= eta cfg_L0 j i <= 1)%R)
    by (intros i j _ _ _; simpl; lra).
  split; [split; [exact Hn | split; [exact HH | exact He]]|].
  exact (C9_no_validation 0 cfg_L0 3 0 0 [] [] dr_plain sd_plain Hn HH He).
Defined.

(** C10.  When an ordinary node with a consistent memory broadcasts, either
    it broadcasts its selected rumor unmutated and its memory is unchanged,
    or it broadcasts the mutated code and its sequence differs from the old
    one only at the earliest occurrence of the selected code, which now
    holds the new code: the length, the total of the counts and every other
    position are unchanged, and the counts move by one from the old code to
    the new one. *)
Theorem C10_mutation_relabels_oldest (cfg : config) (dr : node_draws) (c : counter)
  (l : list code) (h : R) (c' : counter) (l' : list code) (h' : R) (r : code) :
  wf c l -> valid_draws dr ->
  node_local cfg false dr c l h = (c', l', h', Some r) ->
  (r = select_rumor cfg dr c /\ c' = c /\ l' = l) \/
  (r = flip (select_rumor cfg dr c) (d_bitflip dr) /\
   exists pre post,
     l = pre ++ select_rumor cfg dr c :: post /\ ~ In (select_rumor cfg dr c) pre /\
     l' = pre ++ r :: post /\ length l' = length l /\ csum c' = csum c /\ wf c' l' /\
     (forall k, cget c' k = (cget c k + delta k r - delta k (select_rumor cfg dr c))%Z)).
Proof.
  intros Hwf Hd Hn. unfold node_local in Hn. cbv zeta in Hn.
  destruct (csum c =? 0)%Z eqn:Hz; [discriminate|].
  assert (Hne : c <> []) by (intros ->; discriminate).
  pose proof (select_rumor_in cfg dr c Hne (proj1 Hwf) Hd) as Hr.
  destruct (d_mutate dr _).
  - right. injection Hn as <- <- <- <-. split; [reflexivity|].
    destruct (mutate_held_spec c l _ (flip (select_rumor cfg dr c) (d_bitflip dr)) Hwf Hr)
      as (Hw' & Hg & Hs' & pre & post & E & Hnin & E').
    unfold mutate_held in Hw', Hg, Hs', E'. cbv zeta in Hw', Hg, Hs', E'.
    cbn [fst snd] in Hw', Hg, Hs', E'.
    exists pre, post. split; [exact E|]. split; [exact Hnin|]. split; [exact E'|].
    split; [rewrite E', E, !length_app; reflexivity|].
    split; [exact Hs'|]. split; [exact Hw' | exact Hg].
  - left. injection Hn as <- <- <- <-. auto.
Qed.

Lemma C10_witness :
  (wf c_twice l_twice /\ valid_draws dr_mutate) /\
  exists pre post,
    l_twice = pre ++ "00000"%string :: post /\ ~ In "00000"%string pre /\
    snd (fst (fst (node_local cfg_L0 false dr_mutate c_twice l_twice 0%R))) =
      pre ++ "10000"%string :: post.
Proof.
  assert (Hw : wf c_twice l_twice)
    by exact (wf_cincr_app _ ["00000"%string] _ (wf_cincr_app [] [] _ wf_nil)).
  assert (Hd : valid_draws dr_mutate).
  { split; simpl; [lia|]. intros [|p ps] Hps; [congruence | simpl; lia]. }
  split; [split; assumption|].
  destruct (C10_mutation_relabels_oldest cfg_L0 dr_mutate c_twice l_twice 0%R
              [("00000", 1%Z); ("10000", 1%Z)]%string ["10000"; "00000"]%string
              (entropy c_twice (csum c_twice)) "10000"%string Hw Hd eq_refl)
    as [(Hr & _) | (_ & pre & post & E & Hn & E' & _)].
  - discriminate Hr.
  - exists pre, post. split; [exact E|]. split; [exact Hn|].
    etransitivity; [|exact E']. reflexivity.
Defined.

(** * Further properties of the code *)

Import ExtraFacts.

(** X1.  The adjacency matrix returned by [generate_new_graph] is a simple
    undirected graph on its [m0 + T] nodes: every entry is 0 or 1, the
    diagonal is 0 and the matrix is symmetric. *)
Theorem X1_generated_graph_simple (beta : R) (T m0 m : nat) (draws : list (mat Q))
  (sels : nat -> list nat) (M : mat R) (E : mat nat) :
  generate_new_graph beta T m0 m draws sels = Some (M, E) ->
  forall a b, a < m0 + T -> b < m0 + T ->
    (E a b = 0 \/ E a b = 1) /\ E a a = 0 /\ E a b = E b a.
Proof. apply generate_simple. Qed.

Lemma X1_witness :
  exists M, generate_new_graph 1 1 5 2 [draw_split] (fun _ => [0; 2]) = Some (M, E_grow) /\
    (E_grow 5 0 = 0 \/ E_grow 5 0 = 1) /\ E_grow 5 5 = 0 /\ E_grow 5 0 = E_grow 0 5.
Proof.
  destruct gen_grow as (M & Hg). exists M. split; [exact Hg|].
  apply (X1_generated_graph_simple 1 1 5 2 [draw_split] (fun _ => [0; 2]) M E_grow Hg); lia.
Defined.

(** X2.  [generate_graph] on a matrix returned by [generate_new_graph] adds
    the nodes [0 .. n-1] and the edge list holds each pair [(a, b)] with
    [a < b < n] and [edges[a,b] <> 0] exactly once, and no other pair. *)
Theorem X2_generate_graph_edges (beta : R) (T m0 m : nat) (draws : list (mat Q))
  (sels : nat -> list nat) (M : mat R) (E : mat nat) :
  generate_new_graph beta T m0 m draws sels = Some (M, E) ->
  fst (generate_graph E (m0 + T)) = seq 0 (m0 + T) /\
  NoDup (snd (generate_graph E (m0 + T))) /\
  forall a b, In (a, b) (snd (generate_graph E (m0 + T))) <->
    a < b /\ b < m0 + T /\ E a b <> 0.
Proof.
  intros Hgen. split; [reflexivity|]. split; [apply gg_nodup|].
  intros a b. rewrite gg_in. split.
  - intros (Hab & Hb & He). assert (a <> b).
    { intros ->. destruct (generate_simple _ _ _ _ _ _ _ _ Hgen b b Hb Hb) as (_ & Hd & _).
      congruence. }
    split; [lia|]. split; [exact Hb | lia].
  - intros (Hab & Hb & He). split; [lia|]. split; [exact Hb|].
    destruct (generate_simple _ _ _ _ _ _ _ _ Hgen a b ltac:(lia) Hb) as ([H0|H1] & _);
      [contradiction | exact H1].
Qed.

Lemma X2_witness :
  exists M, generate_new_graph 1 1 5 2 [draw_split] (fun _ => [0; 2]) = Some (M, E_grow) /\
    (In (0, 5) (snd (generate_graph E_grow 6)) <-> 0 < 5 /\ 5 < 6 /\ E_grow 0 5 <> 0).
Proof.
  destruct gen_grow as (M & Hg). exists M. split; [exact Hg|].
  exact (proj2 (proj2 (X2_generate_graph_edges 1 1 5 2 [draw_split] (fun _ => [0; 2]) M E_grow Hg))
           0 5).
Defined.

(** X3.  In the networkx graph built by [generate_graph] from a matrix of
    [generate_new_graph], the number of edges at node [a] equals the row sum
    of the matrix at [a]. *)
Theorem X3_generate_graph_degree (beta : R) (T m0 m : nat) (draws : list (mat Q))
  (sels : nat -> list nat) (M : mat R) (E : mat nat) :
  generate_new_graph beta T m0 m draws sels = Some (M, E) ->
  forall a, a < m0 + T ->
    length (filter (fun e => (fst e =? a) || (snd e =? a)) (snd (generate_graph E (m0 + T)))) =
    row_sum E (m0 + T) a.
Proof.
  intros Hgen a Ha. apply gg_degree; [|exact Ha].
  apply (generate_simple _ _ _ _ _ _ _ _ Hgen).
Qed.

Lemma X3_witness :
  exists M, generate_new_graph 1 1 5 2 [draw_split] (fun _ => [0; 2]) = Some (M, E_grow) /\
    length (filter (fun e => (fst e =? 5) || (snd e =? 5)) (snd (generate_graph E_grow 6))) =
    row_sum E_grow 6 5.
Proof.
  destruct gen_grow as (M & Hg). exists M. split; [exact Hg|].
  exact (X3_generate_graph_degree 1 1 5 2 [draw_split] (fun _ => [0; 2]) M E_grow Hg 5
           ltac:(lia)).
Defined.

(** X4.  When the index draws are valid, the role sampling of [run_rumors]
    succeeds and picks [liarnum] liars and [truthnum] truth-tellers, all
    distinct nodes below [n], none of them [init_person]. *)
Theorem X4_roles_distinct (n init_person liarnum truthnum : nat)
  (liar_idx truth_idx : list nat) :
  init_person < n -> valid_sel (n - 1) liarnum liar_idx ->
  valid_sel (n - 1 - liarnum) truthnum truth_idx ->
  exists liars truths,
    choice_wo (liar_pool n init_person) liarnum liar_idx = Some liars /\
    choice_wo (truth_pool n init_person liars) truthnum truth_idx = Some truths /\
    NoDup (init_person :: liars ++ truths) /\ (forall x, In x (liars ++ truths) -> x < n) /\
    length liars = liarnum /\ length truths = truthnum.
Proof. apply roles_spec. Qed.

Lemma X4_witness :
  (0 < 3 /\ valid_sel (3 - 1) 1 [1] /\ valid_sel (3 - 1 - 1) 1 [0]) /\
  exists liars truths,
    choice_wo (liar_pool 3 0) 1 [1] = Some liars /\
    choice_wo (truth_pool 3 0 liars) 1 [0] = Some truths /\
    NoDup (0 :: liars ++ truths) /\ (forall x, In x (liars ++ truths) -> x < 3) /\
    length liars = 1 /\ length truths = 1.
Proof.
  assert (H1 : valid_sel (3 - 1) 1 [1])
    by (split; [reflexivity | split; [repeat constructor; simpl; tauto | simpl; intros x [<-|[]]; lia]]).
  assert (H2 : valid_sel (3 - 1 - 1) 1 [0])
    by (split; [reflexivity | split; [repeat constructor; simpl; tauto | simpl; intros x [<-|[]]; lia]]).
  split; [split; [lia | split; assumption]|].
  exact (X4_roles_distinct 3 0 1 1 [1] [0] ltac:(lia) H1 H2).
Defined.

(** X5.  When [liarnum + truthnum >= n], [run_rumors] fails in the role
    sampling (NumPy's error for a sample larger than its population). *)
Theorem X5_roles_too_many (cfg : config) (init_person num_rounds liarnum truthnum : nat)
  (liar_idx truth_idx : list nat) (dr : nat -> nat -> node_draws)
  (sd : nat -> nat -> nat -> nat) :
  init_person < n_nodes cfg ->
  (liarnum <= n_nodes cfg - 1 -> valid_sel (n_nodes cfg - 1) liarnum liar_idx) ->
  n_nodes cfg <= liarnum + truthnum ->
  run_rumors init_person cfg num_rounds liarnum truthnum liar_idx truth_idx dr sd = None.
Proof. apply roles_error. Qed.

Lemma X5_witness :
  (0 < n_nodes cfg_L0 /\
   (1 <= n_nodes cfg_L0 - 1 -> valid_sel (n_nodes cfg_L0 - 1) 1 [0]) /\
   n_nodes cfg_L0 <= 1 + 1) /\
  run_rumors 0 cfg_L0 3 1 1 [0] [0] dr_plain sd_plain = None.
Proof.
  assert (Hv : 1 <= n_nodes cfg_L0 - 1 -> valid_sel (n_nodes cfg_L0 - 1) 1 [0]).
  { intros _. split; [reflexivity | split; [repeat constructor; simpl; tauto|]].
    simpl. intros x [<-|[]]; lia. }
  split; [split; [simpl; lia | split; [exact Hv | simpl; lia]]|].
  exact (X5_roles_too_many cfg_L0 0 3 1 1 [0] [0] dr_plain sd_plain ltac:(simpl; lia) Hv
           ltac:(simpl; lia)).
Defined.

(** X6.  Inserting queued rumors one by one into a memory of at most [L]
    codes keeps exactly the last [L] codes of the old sequence followed by
    the new ones (FIFO eviction). *)
Theorem X6_insert_keeps_last_L (Lc : Z) (us : list code) (c : counter) (l : list code) :
  (0 <= Lc)%Z -> length l <= Z.to_nat Lc ->
  snd (fold_left (insert Lc) us (c, l)) = skipn (length (l ++ us) - Z.to_nat Lc) (l ++ us).
Proof. apply insert_fifo. Qed.

Lemma X6_witness :
  ((0 <= 2)%Z /\ length ["00000"%string] <= Z.to_nat 2) /\
  snd (fold_left (insert 2) ["00001"; "00010"]%string ([("00000"%string, 1%Z)], ["00000"%string])) =
  skipn (length (["00000"%string] ++ ["00001"; "00010"]%string) - Z.to_nat 2)
        (["00000"%string] ++ ["00001"; "00010"]%string).
Proof.
  split; [split; [lia | simpl; lia]|].
  exact (X6_insert_keeps_last_L 2 ["00001"; "00010"]%string [("00000"%string, 1%Z)]
           ["00000"%string] ltac:(lia) ltac:(simpl; lia)).
Defined.

(** X7.  The mutation [rumor[0:b] + str(1-int(rumor[b])) + rumor[b+1:]] of
    a five-bit code at [b < 5] is a five-bit code that differs from the
    original at position [b] only; flipping the same bit again gives the
    original back. *)
Theorem X7_flip_one_bit (r : code) (b : nat) :
  is_code r = true -> b < 5 ->
  is_code (flip r b) = true /\
  (forall p, p <> b -> String.get p (flip r b) = String.get p r) /\
  String.get b (flip r b) <> String.get b r /\
  flip (flip r b) b = r.
Proof. apply flip_spec. Qed.

Lemma X7_witness :
  (is_code "01101"%string = true /\ 3 < 5) /\
  is_code (flip "01101"%string 3) = true /\
  (forall p, p <> 3 -> String.get p (flip "01101"%string 3) = String.get p "01101"%string) /\
  String.get 3 (flip "01101"%string 3) <> String.get 3 "01101"%string /\
  flip (flip "01101"%string 3) 3 = "01101"%string.
Proof.
  split; [split; [reflexivity | lia]|].
  exact (X7_flip_one_bit "01101"%string 3 eq_refl ltac:(lia)).
Defined.

(** X8.  For any capacity [L] and any roles, at the start of every round
    every node's Counter agrees with its list and the list holds five-bit
    codes only. *)
Theorem X8_reachable_memories_codes (cfg : config) (liars truths : list nat)
  (init_person : nat) (dr : nat -> nat -> node_draws) :
  (forall it i, valid_draws (dr it i) /\ d_bitflip (dr it i) < 5) ->
  forall itnum k i,
    let st := states cfg liars truths dr itnum k (init_state liars truths init_person) in
    wf (mem_dict st i) (mem_list st i) /\
    Forall (fun s => is_code s = true) (mem_list st i).
Proof.
  intros Hd itnum k i. apply (states_codes cfg liars truths dr itnum k _ Hd (init_codes _ _ _)).
Qed.

Lemma X8_witness :
  (forall it i, valid_draws (dr_plain it i) /\ d_bitflip (dr_plain it i) < 5) /\
  let st := states cfg_L0 [1] [] dr_plain 0 3 (init_state [1] [] 1) in
  wf (mem_dict st 1) (mem_list st 1) /\ Forall (fun s => is_code s = true) (mem_list st 1).
Proof.
  assert (Hd : forall it i, valid_draws (dr_plain it i) /\ d_bitflip (dr_plain it i) < 5).
  { intros it i. split; [|simpl; lia]. split; simpl; [lia|].
    intros [|p ps] Hps; [congruence | simpl; lia]. }
  split; [exact Hd|].
  exact (X8_reachable_memories_codes cfg_L0 [1] [] 1 dr_plain Hd 0 3 1).
Defined.

Open Scope R_scope.

(** X9.  The entropy [H] that [run_rumors] computes from a consistent
    memory is non-negative, and it is 0 when the memory holds one distinct
    code. *)
Theorem X9_entropy_range (c : counter) (l : list code) :
  wf c l ->
  0 <= entropy c (csum c) /\ (length (ckeys c) = 1%nat -> entropy c (csum c) = 0).
Proof.
  intros Hw. split; [exact (entropy_nonneg c l Hw)|].
  destruct Hw as (_ & _ & Hp & _).
  destruct c as [|[k v] [|p c]]; cbn [ckeys map length]; intros Hl; try discriminate.
  apply entropy_single. apply (Hp (k, v)). left; reflexivity.
Qed.

Lemma X9_witness :
  wf c_twice l_twice /\
  0 <= entropy c_twice (csum c_twice) /\
  (length (ckeys c_twice) = 1%nat -> entropy c_twice (csum c_twice) = 0).
Proof.
  assert (Hw : wf c_twice l_twice)
    by exact (wf_cincr_app (cincr [] "00000") ["00000"] "00000"
                (wf_cincr_app [] [] "00000" wf_nil))%string.
  split; [exact Hw | exact (X9_entropy_range c_twice l_twice Hw)].
Defined.

Close Scope R_scope.

Open Scope R_scope.

(** X10.  For every round of a run, the recorded minimum entropy is at
    least 0 and at most the mean, the mean is at most the maximum, and the
    variance is non-negative. *)
Theorem X10_run_stats_order (init_person : nat) (cfg : config)
  (num_rounds liarnum truthnum : nat) (liar_idx truth_idx : list nat)
  (dr : nat -> nat -> node_draws) (sd : nat -> nat -> nat -> nat) (s : stats) :
  (forall it i, valid_draws (dr it i) /\ (d_bitflip (dr it i) < 5)%nat) ->
  run_rumors init_person cfg num_rounds liarnum truthnum liar_idx truth_idx dr sd = Some s ->
  forall t, (t < num_rounds)%nat ->
    0 <= nth t (minH s) 0 /\ nth t (minH s) 0 <= nth t (avgH s) 0 /\
    nth t (avgH s) 0 <= nth t (maxH s) 0 /\ 0 <= nth t (varH s) 0.
Proof.
  intros Hd Hrun.
  destruct (run_rumors_rows init_person cfg num_rounds liarnum truthnum liar_idx truth_idx dr sd
    (fun st => codes_inv st /\ forall i, 0 <= Hs st i)
    (fun e => 0 <= snd (fst e) /\ snd (fst e) <= fst (fst (fst (fst e))) /\
              fst (fst (fst (fst e))) <= snd (fst (fst e)) /\ 0 <= snd (fst (fst (fst e))))
    s) as (es & Hl & HQ & ->).
  - intros liars truths. split; [apply init_codes | apply init_H].
  - intros liars truths it st [Hc Hh]. split.
    + apply round_codes; [intros i; apply Hd | exact Hc].
    + apply round_H; assumption.
  - intros it st [[[[a v] x] m] f] [_ Hh] He. cbn [fst snd].
    apply (round_stats_order cfg st (sd it) a v x m f); [intros i _; apply Hh | exact He].
  - exact Hrun.
  - intros t Ht. destruct (push_fold es empty_stats) as (H1 & H2 & H3 & H4 & _).
    rewrite H1, H2, H3, H4. cbn [avgH varH maxH minH empty_stats app].
    set (d := (0, 0, 0, 0, @nil R)).
    rewrite !(nth_map_lt _ es t d) by lia.
    rewrite Forall_forall in HQ. apply HQ, nth_In. lia.
Qed.

(** X11.  A successful run returns five series of [num_rounds] entries;
    each opinion-fragmentation column has 32 entries in [0, 1] whose sum is
    at most 1. *)
Theorem X11_run_series_shape (init_person : nat) (cfg : config)
  (num_rounds liarnum truthnum : nat) (liar_idx truth_idx : list nat)
  (dr : nat -> nat -> node_draws) (sd : nat -> nat -> nat -> nat) (s : stats) :
  run_rumors init_person cfg num_rounds liarnum truthnum liar_idx truth_idx dr sd = Some s ->
  length (avgH s) = num_rounds /\ length (varH s) = num_rounds /\
  length (maxH s) = num_rounds /\ length (minH s) = num_rounds /\
  length (opinion_frag s) = num_rounds /\
  (forall fr, In fr (opinion_frag s) ->
     length fr = 32%nat /\ (forall f, In f fr -> 0 <= f <= 1) /\ sumR fr <= 1).
Proof.
  intros Hrun.
  destruct (run_rumors_rows init_person cfg num_rounds liarnum truthnum liar_idx truth_idx dr sd
    (fun _ => True)
    (fun e => length (snd e) = 32%nat /\ (forall f, In f (snd e) -> 0 <= f <= 1) /\
              sumR (snd e) <= 1)
    s) as (es & Hl & HQ & ->); [auto | auto | | exact Hrun |].
  - intros it st [[[[a v] x] m] f] _ He. cbn [snd].
    pose proof (round_stats_nodes cfg st (sd it) _ He) as Hn.
    destruct (round_stats_frag cfg st (sd it) a v x m f He) as (Hlen & Hunit & Hsum).
    split; [exact Hlen|]. split; [exact Hunit|].
    apply Rmult_le_reg_r with (INR (n_nodes cfg)); [apply lt_0_INR; exact Hn|].
    rewrite Hsum, Rmult_1_l. apply le_INR.
    eapply Nat.le_trans; [apply filter_le_length|]. rewrite length_map.
    rewrite <- (length_seq (n_nodes cfg) 0) at 2. apply filter_le_length.
  - destruct (push_fold es empty_stats) as (H1 & H2 & H3 & H4 & H5).
    rewrite H1, H2, H3, H4, H5. cbn [avgH varH maxH minH opinion_frag empty_stats app].
    rewrite !length_map. split; [exact Hl|]. split; [exact Hl|]. split; [exact Hl|].
    split; [exact Hl|]. split; [exact Hl|].
    intros fr Hfr. apply in_map_iff in Hfr. destruct Hfr as (e & <- & He).
    rewrite Forall_forall in HQ. exact (HQ e He).
Qed.

(** X12.  In every reached state, the column of opinion fractions sums,
    times [n], to the number of nodes whose memory is non-empty. *)
Theorem X12_frag_counts_holders (cfg : config) (liars truths : list nat) (init_person : nat)
  (dr : nat -> nat -> node_draws) (sd : nat -> nat -> nat) (itnum k : nat)
  (avg var mx mn : R) (fr : list R) :
  (forall it i, valid_draws (dr it i) /\ (d_bitflip (dr it i) < 5)%nat) ->
  (forall i b, (0 < b)%nat -> (sd i b < b)%nat) ->
  let st := states cfg liars truths dr itnum k (init_state liars truths init_person) in
  round_stats cfg st sd = Some (avg, var, mx, mn, fr) ->
  sumR fr * INR (n_nodes cfg) = INR (length (filter (holds_rumor st) (seq 0 (n_nodes cfg)))).
Proof.
  intros Hd Hsd st Hrs. apply (round_stats_frag_exact cfg st sd avg var mx mn fr); [|exact Hsd|exact Hrs].
  apply states_codes; [exact Hd | apply init_codes].
Qed.

Close Scope R_scope.

(** X13.  In every reached state, [str2col] on a node's Counter raises no
    error and returns a colour, and the colour is white exactly when the
    node's memory is empty. *)
Theorem X13_str2col_reachable (cfg : config) (liars truths : list nat) (init_person : nat)
  (dr : nat -> nat -> node_draws) (itnum k i : nat) (pick : nat -> nat) :
  (forall it j, valid_draws (dr it j) /\ d_bitflip (dr it j) < 5) ->
  (forall b, 0 < b -> pick b < b) ->
  let st := states cfg liars truths dr itnum k (init_state liars truths init_person) in
  exists col, str2col (mem_dict st i) pick = Some (Some col) /\
    (col = "#ffffff"%string <-> mem_list st i = []).
Proof.
  intros Hd Hp st.
  destruct (states_codes cfg liars truths dr itnum k _ Hd (init_codes liars truths init_person) i)
    as [Hw Hl].
  exact (str2col_spec _ _ pick Hw Hl Hp).
Qed.

Open Scope R_scope.

(** X14.  For [Hmax > 0], the mutation probability [Pi] lies strictly
    between 0 and 1, equals 1/2 at [H = Hmax] and, for [K > 0], grows
    strictly with [H]. *)
Theorem X14_mutation_prob_shape (cfg : config) :
  0 < Hmax cfg ->
  (forall h, 0 < mutation_prob cfg h < 1) /\ mutation_prob cfg (Hmax cfg) = 1 / 2 /\
  (0 < K cfg -> forall h1 h2, h1 < h2 -> mutation_prob cfg h1 < mutation_prob cfg h2).
Proof.
  intros HH. split; [apply mutation_prob_unit|]. split; [apply mutation_prob_half|].
  intros HK h1 h2. apply mutation_prob_incr; assumption.
Qed.

Lemma X14_witness :
  0 < Hmax cfg_L1 /\
  (forall h, 0 < mutation_prob cfg_L1 h < 1) /\ mutation_prob cfg_L1 (Hmax cfg_L1) = 1 / 2 /\
  (0 < K cfg_L1 -> forall h1 h2, h1 < h2 -> mutation_prob cfg_L1 h1 < mutation_prob cfg_L1 h2).
Proof.
  assert (HH : 0 < Hmax cfg_L1) by (simpl; lra).
  split; [exact HH | exact (X14_mutation_prob_shape cfg_L1 HH)].
Defined.

Close Scope R_scope.

Open Scope R_scope.

Lemma X10_witness :
  exists s, ((forall it i, valid_draws (dr_plain it i) /\ (d_bitflip (dr_plain it i) < 5)%nat) /\
    run_rumors 0 cfg_L1 2 0 0 [] [] dr_plain sd_plain = Some s) /\
    0 <= nth 1 (minH s) 0 /\ nth 1 (minH s) 0 <= nth 1 (avgH s) 0 /\
    nth 1 (avgH s) 0 <= nth 1 (maxH s) 0 /\ 0 <= nth 1 (varH s) 0.
Proof.
  destruct run_plain as (s & Hs). exists s. split; [split; [exact dr_plain_ok | exact Hs]|].
  exact (X10_run_stats_order 0 cfg_L1 2 0 0 [] [] dr_plain sd_plain s dr_plain_ok Hs 1
           ltac:(lia)).
Defined.

Lemma X11_witness :
  exists s, run_rumors 0 cfg_L1 2 0 0 [] [] dr_plain sd_plain = Some s /\
  length (avgH s) = 2%nat /\ length (varH s) = 2%nat /\
  length (maxH s) = 2%nat /\ length (minH s) = 2%nat /\
  length (opinion_frag s) = 2%nat /\
  (forall fr, In fr (opinion_frag s) ->
     length fr = 32%nat /\ (forall f, In f fr -> 0 <= f <= 1) /\ sumR fr <= 1).
Proof.
  destruct run_plain as (s & Hs). exists s. split; [exact Hs|].
  exact (X11_run_series_shape 0 cfg_L1 2 0 0 [] [] dr_plain sd_plain s Hs).
Defined.

Lemma X12_witness :
  exists avg var mx mn fr,
  ((forall it i, valid_draws (dr_plain it i) /\ (d_bitflip (dr_plain it i) < 5)%nat) /\
   (forall i b, (0 < b)%nat -> ((fun _ _ : nat => 0%nat) i b < b)%nat) /\
   round_stats cfg_L1 (states cfg_L1 [] [] dr_plain 0 2 (init_state [] [] 0))
     (fun _ _ => 0%nat) = Some (avg, var, mx, mn, fr)) /\
  sumR fr * INR (n_nodes cfg_L1) =
    INR (length (filter (holds_rumor (states cfg_L1 [] [] dr_plain 0 2 (init_state [] [] 0)))
                   (seq 0 (n_nodes cfg_L1)))).
Proof.
  destruct (round_stats_some cfg_L1 (states cfg_L1 [] [] dr_plain 0 2 (init_state [] [] 0))
              (fun _ _ => 0%nat) ltac:(simpl; lia)) as ([[[[a v] x] m] f] & He).
  exists a, v, x, m, f.
  assert (Hsd : forall i b, (0 < b)%nat -> ((fun _ _ : nat => 0%nat) i b < b)%nat)
    by (intros i b Hb; exact Hb).
  split; [split; [exact dr_plain_ok | split; [exact Hsd | exact He]]|].
  exact (X12_frag_counts_holders cfg_L1 [] [] 0 dr_plain (fun _ _ => 0%nat) 0 2 a v x m f
           dr_plain_ok Hsd He).
Defined.

Close Scope R_scope.

Lemma X13_witness :
  ((forall it j, valid_draws (dr_plain it j) /\ d_bitflip (dr_plain it j) < 5) /\
   (forall b, 0 < b -> (fun _ : nat => 0) b < b)) /\
  exists col,
    str2col (mem_dict (states cfg_L1 [] [] dr_plain 0 2 (init_state [] [] 0)) 1) (fun _ => 0)
      = Some (Some col) /\
    (col = "#ffffff"%string <->
     mem_list (states cfg_L1 [] [] dr_plain 0 2 (init_state [] [] 0)) 1 = []).
Proof.
  assert (Hp : forall b, 0 < b -> (fun _ : nat => 0) b < b) by (intros b Hb; exact Hb).
  split; [split; [exact dr_plain_ok | exact Hp]|].
  exact (X13_str2col_reachable cfg_L1 [] [] 0 dr_plain 0 2 1 (fun _ => 0) dr_plain_ok Hp).
Defined.

(** X15.  For a non-empty consistent memory and valid draws, the rumor a
    node selects (most common, or drawn by weight) is one it holds. *)
Theorem X15_selected_rumor_held (cfg : config) (dr : node_draws) (c : counter) (l : list code) :
  wf c l -> l <> [] -> valid_draws dr -> In (select_rumor cfg dr c) l.
Proof.
  intros Hw Hl Hd. apply (wf_in c l _ Hw). apply select_rumor_in; [|apply Hw | exact Hd].
  intros ->. destruct Hw as (_ & _ & _ & Hs). unfold csum in Hs. simpl in Hs.
  destruct l; [contradiction | simpl in Hs; lia].
Qed.

Lemma X15_witness :
  (wf c_twice l_twice /\ l_twice <> [] /\ valid_draws dr_mutate) /\
  In (select_rumor cfg_L1 dr_mutate c_twice) l_twice.
Proof.
  assert (Hw : wf c_twice l_twice)
    by exact (wf_cincr_app (cincr [] "00000") ["00000"] "00000"
                (wf_cincr_app [] [] "00000" wf_nil))%string.
  assert (Hd : valid_draws dr_mutate).
  { split; simpl; [lia|]. intros [|p ps] Hps; [congruence | simpl; lia]. }
  assert (Hl : l_twice <> []) by discriminate.
  split; [split; [exact Hw | split; [exact Hl | exact Hd]]|].
  exact (X15_selected_rumor_held cfg_L1 dr_mutate c_twice l_twice Hw Hl Hd).
Defined.
